(** * task_wolf: the Hacker News "newest" ordering bot (src/index.js)

    A shallow embedding of [validateArticleSorting] and the properties of
    its accumulation loop, its sort and its verification scan.

    Layout:
    - [JSNumber]   the Number values the bot computes with;
    - [JSString]   [String.prototype.match] with [/\d+/], [parseInt], [trim];
    - [JSArray]    [Array.prototype.sort] with a comparator;
    - [Scraper]    the callback given to [page.evaluate] (lines 42-63);
    - [Bot]        the store of arrays, the output, the loop and the run. *)

From Stdlib Require Import ZArith Lia Bool String Ascii List Permutation.
From stdpp Require Import base decidable option list strings pretty.

Local Open Scope Z_scope.

(** ** Numbers *)

(** The Numbers of the bot are timestamps, their differences and NaN.  A
    timestamp is [parseInt(digits) * 1000]: an integer-valued double, or
    [+Infinity], or NaN.  A finite Number is kept as the integer it denotes;
    [to_number] rounds an integer to the nearest double (ties to even, 53 bits
    of significand, overflow to an infinity from [2^1024 - 2^970] on), as
    ECMAScript's Number::multiply and Number::subtract do.  The sign of zero is
    not kept: the bot never observes it. *)
Module JSNumber.

Inductive number : Type :=
| Fin (z : Z)
| PInf
| NInf
| NaN.

#[global] Instance number_eq_dec : EqDecision number.
Proof. solve_decision. Defined.

Definition round_pos (n : Z) : number :=
  let e := Z.log2 n in
  if e <? 53 then Fin n
  else
    let s := e - 52 in
    let q := Z.shiftr n s in
    let r := n - Z.shiftl q s in
    let h := Z.shiftl 1 (s - 1) in
    let q' := if (h <? r) || ((r =? h) && Z.odd q) then q + 1 else q in
    let v := Z.shiftl q' s in
    if 2 ^ 1024 <=? v then PInf else Fin v.

Definition neg (a : number) : number :=
  match a with
  | Fin z => Fin (- z)
  | PInf => NInf
  | NInf => PInf
  | NaN => NaN
  end.

Definition to_number (z : Z) : number :=
  match z with
  | Z0 => Fin 0
  | Zpos _ => round_pos z
  | Zneg p => neg (round_pos (Zpos p))
  end.

(** [a - b] *)
Definition sub (a b : number) : number :=
  match a, b with
  | NaN, _ | _, NaN => NaN
  | Fin x, Fin y => to_number (x - y)
  | PInf, PInf | NInf, NInf => NaN
  | PInf, _ | _, NInf => PInf
  | NInf, _ | _, PInf => NInf
  end.

(** the sign of a Number: [-1], [0] or [1]; [None] for NaN *)
Definition sign (a : number) : option Z :=
  match a with
  | Fin z => Some (Z.sgn z)
  | PInf => Some 1
  | NInf => Some (-1)
  | NaN => None
  end.

(** [a * b] *)
Definition mul (a b : number) : number :=
  match a, b with
  | Fin x, Fin y => to_number (x * y)
  | _, _ =>
      match sign a, sign b with
      | Some sa, Some sb =>
          match sa * sb with
          | Z0 => NaN
          | Zpos _ => PInf
          | Zneg _ => NInf
          end
      | _, _ => NaN
      end
  end.

(** [a > b]: false as soon as one side is NaN *)
Definition gt (a b : number) : bool :=
  match a, b with
  | NaN, _ | _, NaN => false
  | Fin x, Fin y => y <? x
  | PInf, PInf | NInf, NInf => false
  | PInf, _ | _, NInf => true
  | NInf, _ | _, PInf => false
  end.

(** [a <= b]: false as soon as one side is NaN *)
Definition le (a b : number) : bool :=
  match a, b with
  | NaN, _ | _, NaN => false
  | Fin x, Fin y => x <=? y
  | PInf, PInf | NInf, NInf => true
  | PInf, _ | _, NInf => false
  | NInf, _ | _, PInf => true
  end.

(** the global [isNaN], on a Number *)
Definition isNaN (a : number) : bool :=
  match a with NaN => true | _ => false end.

Definition isFinite (a : number) : bool :=
  match a with Fin _ => true | _ => false end.

(** A finite Number denotes a double when rounding leaves it alone. *)
Definition representable (z : Z) : Prop := to_number z = Fin z.

End JSNumber.
Export JSNumber.

(** ** Strings *)

(** Strings are byte strings holding the UTF-8 encoding of the text.  [\d]
    (no [u] flag) is [0-9], one byte each.  The white space [trim] removes is
    that of ECMAScript (WhiteSpace and LineTerminator): one byte for TAB, LF,
    VT, FF, CR and SP; two for U+00A0; three for U+1680, U+2000 to U+200A,
    U+2028, U+2029, U+202F, U+205F, U+3000 and U+FEFF. *)
Module JSString.

Local Open Scope N_scope.

Definition is_digit (c : ascii) : bool :=
  let n := N_of_ascii c in (48 <=? n) && (n <=? 57).

Definition is_space (c : ascii) : bool :=
  match N_of_ascii c with
  | 9 | 10 | 11 | 12 | 13 | 32 => true
  | _ => false
  end.

(** U+00A0 is C2 A0 *)
Definition is_space2 (c d : ascii) : bool :=
  (N_of_ascii c =? 194) && (N_of_ascii d =? 160).

(** U+1680 is E1 9A 80; U+2000 to U+200A are E2 80 80 to E2 80 8A; U+2028,
    U+2029 and U+202F are E2 80 A8, A9 and AF; U+205F is E2 81 9F; U+3000 is
    E3 80 80; U+FEFF is EF BB BF *)
Definition is_space3 (c d e : ascii) : bool :=
  let x := N_of_ascii c in
  let y := N_of_ascii d in
  let z := N_of_ascii e in
  ((x =? 225) && (y =? 154) && (z =? 128))
  || ((x =? 226) && (y =? 128)
      && (((128 <=? z) && (z <=? 138)) || (z =? 168) || (z =? 169) || (z =? 175)))
  || ((x =? 226) && (y =? 129) && (z =? 159))
  || ((x =? 227) && (y =? 128) && (z =? 128))
  || ((x =? 239) && (y =? 187) && (z =? 191)).

Local Close Scope N_scope.

(** what is left of [s] after the white space code point it starts with *)
Definition strip_space (s : string) : option string :=
  match s with
  | EmptyString => None
  | String c s1 =>
      if is_space c then Some s1
      else
        match s1 with
        | EmptyString => None
        | String d s2 =>
            if is_space2 c d then Some s2
            else
              match s2 with
              | EmptyString => None
              | String e s3 => if is_space3 c d e then Some s3 else None
              end
        end
  end.

(** the longest prefix of decimal digits *)
Fixpoint digits_prefix (s : string) : string :=
  match s with
  | EmptyString => EmptyString
  | String c s' => if is_digit c then String c (digits_prefix s') else EmptyString
  end.

(** [s.match(/\d+/)?.[0]]: the first maximal run of digits of [s];
    [None] stands for [undefined] ([match] returned [null]). *)
Fixpoint match_digits (s : string) : option string :=
  match s with
  | EmptyString => None
  | String c s' =>
      if is_digit c then Some (String c (digits_prefix s')) else match_digits s'
  end.

Definition digit_value (c : ascii) : Z := Z.of_N (N_of_ascii c) - 48.

Fixpoint decimal_from (acc : Z) (s : string) : Z :=
  match s with
  | EmptyString => acc
  | String c s' => decimal_from (10 * acc + digit_value c) s'
  end.

(** the mathematical integer a run of digits denotes *)
Definition decimal (s : string) : Z := decimal_from 0 s.

(** [parseInt(arg)] with no radix, for the arguments line 53 gives it:
    [undefined] (so the string "undefined", which starts with no digit) or a
    run of decimal digits, read in radix 10 and rounded to a Number.  Sign,
    leading white space and the [0x] prefix of [parseInt] cannot occur after
    [/\d+/] and are not modelled.  (ECMAScript lets an engine zero the digits
    after the 20th; the exact value is taken, as V8 does.) *)
Definition parseInt (arg : option string) : number :=
  match arg with
  | None => NaN
  | Some s =>
      match digits_prefix s with
      | EmptyString => NaN
      | ds => to_number (decimal ds)
      end
  end.

Fixpoint trim_start (s : string) : string :=
  match s with
  | EmptyString => EmptyString
  | String c s1 =>
      if is_space c then trim_start s1
      else
        match s1 with
        | EmptyString => s
        | String d s2 =>
            if is_space2 c d then trim_start s2
            else
              match s2 with
              | EmptyString => s
              | String e s3 => if is_space3 c d e then trim_start s3 else s
              end
        end
  end.

(** [s] is white space from end to end *)
Definition all_white (s : string) : bool :=
  match trim_start s with
  | EmptyString => true
  | String _ _ => false
  end.

(** what is before the longest suffix of [s] that is white space *)
Fixpoint trim_end (s : string) : string :=
  match s with
  | EmptyString => EmptyString
  | String c s' => if all_white s then EmptyString else String c (trim_end s')
  end.

(** [s.trim()] *)
Definition trim (s : string) : string := trim_end (trim_start s).

(** a template literal's [${n}] for a non-negative integer below 2^53 *)
Definition show_nat (n : nat) : string := pretty.pretty n.

Fixpoint has_digit (s : string) : bool :=
  match s with
  | EmptyString => false
  | String c s' => is_digit c || has_digit s'
  end.

End JSString.
Export JSString.

(** ** Array.prototype.sort *)

(** [sort] is a built-in.  ECMAScript fixes its result for a consistent
    comparator: the elements, stably arranged so that [cmp a b > 0] puts [b]
    first; a comparator result of NaN counts as [+0] (SortCompare).  The
    embedding is the stable insertion sort with exactly that test.  On an
    inconsistent comparator the arrangement is up to the engine; statements
    that must hold of every engine quantify over the arrangement. *)
Module JSArray.

Section Sort.
Context {A : Type}.
Variable cmp : A -> A -> number.

(** [v > 0], with NaN read as [+0] *)
Definition positive (v : number) : bool := gt v (Fin 0).

Fixpoint insert_by (x : A) (l : list A) : list A :=
  match l with
  | [] => [x]
  | y :: l' => if positive (cmp x y) then y :: insert_by x l' else x :: l
  end.

Definition sort_by (l : list A) : list A := foldr insert_by [] l.
End Sort.

End JSArray.
Export JSArray.

(** ** Extraction: the callback of [page.evaluate] (lines 42-63) *)

Module Scraper.

(** The object pushed at lines 55-58: [{ title, timestamp }]. *)
Record Item : Type := { title : string; timestamp : number }.

#[global] Instance Item_eq_dec : EqDecision Item.
Proof. solve_decision. Defined.

(** What the callback reads of one [tr.athing] row. *)
Record Row : Type := {
  (** [row.getAttribute("id")]; [None] is [null] *)
  row_id : option string;
  (** [textContent] of [row.querySelector(".titleline > a")], when the row
      has such an element *)
  titleEl : option string
}.

(** What the callback reads of the document. *)
Record Document : Type := {
  (** [document.querySelectorAll("tr.athing")], in document order *)
  rows : list Row;
  (** for a selector [sel], the [href] of
      [document.querySelector(sel)?.parentElement?.querySelector(".age > a")];
      [None] when a link of the chain is missing *)
  age_href : string -> option string
}.

(** the template literal of line 49; [null] prints as "null" *)
Definition score_selector (id : option string) : string :=
  "#score_" +:+ default "null"%string id.

(** One turn of the [for ... of] loop, lines 47-60, on the [results] so far. *)
Definition visit (doc : Document) (results : list Item) (row : Row) : list Item :=
  let id := row_id row in
  let ageEl := age_href doc (score_selector id) in
  match titleEl row, ageEl with
  | Some text, Some href =>
      let timestamp := mul (parseInt (match_digits href)) (Fin 1000) in
      if negb (isNaN timestamp)
      then results ++ [ {| title := trim text; timestamp := timestamp |} ]
      else results
  | _, _ => results
  end.

(** the value [page.evaluate] resolves to *)
Definition evaluate (doc : Document) : list Item :=
  foldl (visit doc) [] (rows doc).

(** the Item a row gives, if it gives one *)
Definition admitted (doc : Document) (row : Row) : option Item :=
  match visit doc [] row with
  | it :: _ => Some it
  | [] => None
  end.

(** What a row offers as raw record: the trimmed title text, when the row has
    a title element, and the timestamp of line 53, NaN when there is no age
    element to read it from. *)
Definition raw_title (row : Row) : option string := trim <$> titleEl row.

Definition raw_timestamp (doc : Document) (row : Row) : number :=
  from_option (fun href => mul (parseInt (match_digits href)) (Fin 1000)) NaN
              (age_href doc (score_selector (row_id row))).

(** The admission rule in the words of the specification (P1): "non-empty
    title and a finite numeric timestamp". *)
Definition spec_admits (title : option string) (timestampMs : number) : bool :=
  match title with
  | Some t => negb (String.eqb t "") && isFinite timestampMs
  | None => false
  end.

Definition not_nan (it : Item) : Prop := isNaN (timestamp it) = false.

End Scraper.
Export Scraper.

(** ** The bot *)

Module Bot.

(** the comparator of line 80: [(a, b) => b.timestamp - a.timestamp] *)
Definition by_timestamp_desc (a b : Item) : number :=
  sub (timestamp b) (timestamp a).

(** What a [throw] carries. *)
Inductive Thrown : Type :=
| Error (message : string)  (** [new Error(message)], line 99 *)
| TimeoutError              (** [page.click]: no [.morelink] to click *)
| NavigationError.          (** [page.goto] failed *)

(** One line of output.  The [logger] prefix reads the clock and the listing
    prints the date in the host's locale: the lines are kept structured. *)
Inductive Output : Type :=
| Info (msg : string)
| Success (msg : string)
| Failure (cause : Thrown)  (** [logger.error(`Validation failed: ${error.message}`)] *)
| Listing (position : nat) (date : number) (title : string).  (** line 90 *)

#[global] Instance Thrown_eq_dec : EqDecision Thrown.
Proof. solve_decision. Defined.

#[global] Instance Output_eq_dec : EqDecision Output.
Proof. solve_decision. Defined.

(** A reference to an array of the store. *)
Abbreviation ref := nat.
Abbreviation Store := (list (list Item)).

(** A call on the browser, with the store as it was when the call was made. *)
Inductive Call : Type :=
| Goto
| Evaluate
| ClickMore (store : Store)
| Close.

(** the message of lines 100-101 *)
Definition sorting_error (i : nat) (cur prev : Item) : string :=
  "Sorting error at position " +:+ show_nat i +:+ ": " +:+
  "Article '" +:+ title cur +:+ "' is newer than '" +:+ title prev +:+ "'".

(** The scan of lines 97-104, from position [i] on, [prev] being
    [top100[i - 1]]: the first [i] with
    [top100[i].timestamp > top100[i - 1].timestamp]. *)
Fixpoint scan_from (i : nat) (prev : Item) (rest : list Item)
  : option (nat * Item * Item) :=
  match rest with
  | [] => None
  | cur :: rest' =>
      if gt (timestamp cur) (timestamp prev) then Some (i, cur, prev)
      else scan_from (S i) cur rest'
  end.

Definition first_violation (top100 : list Item) : option (nat * Item * Item) :=
  match top100 with
  | [] => None
  | first :: rest => scan_from 1 first rest
  end.

(** "for all adjacent pairs, [ordered[i].timestamp <= ordered[i-1].timestamp]",
    [prev] being the element before [rest] *)
Fixpoint descending_from (prev : Item) (rest : list Item) : bool :=
  match rest with
  | [] => true
  | cur :: rest' => le (timestamp cur) (timestamp prev) && descending_from cur rest'
  end.

Definition descending (ordered : list Item) : bool :=
  match ordered with
  | [] => true
  | first :: rest => descending_from first rest
  end.

(** the lines of the [forEach] of lines 88-91 *)
Definition listing (top100 : list Item) : list Output :=
  imap (fun index article => Listing (index + 1) (timestamp article) (title article))
       top100.

Definition success_marker : Output :=
  Success "Successfully validated and sorted 100 articles.".


Inductive completion (A : Type) : Type :=
| Normal (a : A)
| Throw (e : Thrown)
| Diverge.  (** the fuel of the loop ran out *)
Arguments Normal {A} a.
Arguments Throw {A} e.
Arguments Diverge {A}.

(** the stores recorded at the clicks on [.morelink], in order *)
Definition clicks (cs : list Call) : list Store :=
  omap (fun c => match c with ClickMore h => Some h | _ => None end) cs.

(** each click was made while the array [articles] was shorter than [target] *)
Definition clicks_guarded (target : nat) (articles : ref) (cs : list Call) : bool :=
  forallb (fun h => length (default [] (h !! articles)) <? target)%nat (clicks cs).

Definition is_info (o : Output) : bool :=
  match o with Info _ => true | _ => false end.

Definition is_failure (o : Output) : bool :=
  match o with Failure _ => true | _ => false end.

Definition is_listing (o : Output) : bool :=
  match o with Listing _ _ _ => true | _ => false end.

Definition has_failure (os : list Output) : bool := existsb is_failure os.

Definition has_marker (os : list Output) : bool :=
  existsb (fun o => bool_decide (o = success_marker)) os.

(** how many [Validation failed] lines there are *)
Definition count_failures (os : list Output) : nat :=
  length (List.filter is_failure os).

(** what lines 82-94 print for the sorted array *)
Definition report (ordered : list Item) : list Output :=
  [ Info "Sorting articles from newest to oldest...";
    Info (String "010"%char "Final sorted list of 100 articles (newest to oldest):");
    Info "----------------------------------------" ]
  ++ listing ordered
  ++ [ Info "----------------------------------------"; success_marker ].

(** the sample of line 80, sorted *)
Definition top_sorted (n : nat) (articles : list Item) : list Item :=
  sort_by by_timestamp_desc (take n articles).

(** how the scan of lines 97-104 completes on an array *)
Definition verify (top100 : list Item) : completion unit :=
  match first_violation top100 with
  | Some (i, cur, prev) => Throw (Error (sorting_error i cur prev))
  | None => Normal tt
  end.

Section Site.
(** The site, as the browser shows it: the states of the page, the
    document of each, and where a click on [.morelink] leads once the
    network is idle ([None]: no such element, the click times out). *)
Variable Page : Type.
Variable document : Page -> Document.
Variable more : Page -> option Page.
(** what [page.goto] reaches; [None]: the navigation fails *)
Variable newest : option Page.

Record State : Type := {
  page : option Page;  (** [None]: the blank page of [newPage] *)
  arrays : Store;
  out : list Output;
  calls : list Call
}.

Definition initial : State :=
  {| page := None; arrays := []; out := []; calls := [] |}.

Definition M (A : Type) : Type := State -> completion A * State.

#[global] Instance M_ret : MRet M := fun A a st => (Normal a, st).
#[global] Instance M_bind : MBind M := fun A B k m st =>
  match m st with
  | (Normal a, st') => k a st'
  | (Throw e, st') => (Throw e, st')
  | (Diverge, st') => (Diverge, st')
  end.

Definition throw {A : Type} (e : Thrown) : M A := fun st => (Throw e, st).
Definition diverge {A : Type} : M A := fun st => (Diverge, st).

Definition print (o : Output) : M unit := fun st =>
  (Normal tt,
   {| page := page st; arrays := arrays st; out := out st ++ [o]; calls := calls st |}).

Definition print_all (os : list Output) : M unit := fun st =>
  (Normal tt,
   {| page := page st; arrays := arrays st; out := out st ++ os; calls := calls st |}).

Definition called (c : Call) (st : State) : State :=
  {| page := page st; arrays := arrays st; out := out st; calls := calls st ++ [c] |}.

Definition set_page (p : Page) (st : State) : State :=
  {| page := Some p; arrays := arrays st; out := out st; calls := calls st |}.

Definition set_arrays (h : Store) (st : State) : State :=
  {| page := page st; arrays := h; out := out st; calls := calls st |}.

(** [page.goto(url, { waitUntil: "networkidle" })] *)
Definition goto : M unit := fun st =>
  match newest with
  | Some p => (Normal tt, set_page p (called Goto st))
  | None => (Throw NavigationError, called Goto st)
  end.

(** [page.evaluate(callback)]; the blank page has no row.  The callback is
    taken to return: the documents considered give every row an [id] for
    which the selector of line 49 is valid ([age_href] is total), so the
    [querySelector] of line 49 does not throw. *)
Definition page_evaluate : M (list Item) := fun st =>
  (Normal (from_option (fun p => evaluate (document p)) [] (page st)),
   called Evaluate st).

(** [Promise.all([page.click(".morelink"), page.waitForLoadState(...)])] *)
Definition click_more : M unit := fun st =>
  let st' := called (ClickMore (arrays st)) st in
  match page st ≫= more with
  | Some p => (Normal tt, set_page p st')
  | None => (Throw TimeoutError, st')
  end.

(** [browser.close()] *)
Definition close : M unit := fun st => (Normal tt, called Close st).

(** the contents of an array; a dangling reference does not occur *)
Definition contents (a : ref) (st : State) : list Item :=
  default [] (arrays st !! a).

(** an array literal or any other fresh array *)
Definition new_array (items : list Item) : M ref := fun st =>
  (Normal (length (arrays st)), set_arrays (arrays st ++ [items]) st).

Definition array_length (a : ref) : M nat := fun st =>
  (Normal (length (contents a st)), st).

Definition read (a : ref) : M (list Item) := fun st =>
  (Normal (contents a st), st).

(** [a.push(...items)] *)
Definition push (a : ref) (items : list Item) : M unit := fun st =>
  (Normal tt, set_arrays (<[a := contents a st ++ items]> (arrays st)) st).

(** [a.slice(0, n)]: a fresh array *)
Definition slice0 (a : ref) (n : nat) : M ref := fun st =>
  new_array (take n (contents a st)) st.

(** [a.sort(cmp)]: sorts [a] in place and returns [a] *)
Definition sort (a : ref) (cmp : Item -> Item -> number) : M ref := fun st =>
  (Normal a, set_arrays (<[a := sort_by cmp (contents a st)]> (arrays st)) st).

(** The [while] loop of lines 38-77, on the array [articles]; [target] is
    the 100 of lines 38 and 70. *)
Fixpoint accumulate (target : nat) (fuel : nat) (articles : ref) : M unit :=
  match fuel with
  | O => diverge
  | S fuel' =>
      n ← array_length articles;
      if (n <? target)%nat then
        print (Info ("Extracting articles... Current count: " +:+ show_nat n));;
        newArticles ← page_evaluate;
        print (Info ("Extracted " +:+ show_nat (length newArticles)
                     +:+ " new articles from page."));;
        push articles newArticles;;
        n' ← array_length articles;
        (if (n' <? target)%nat then
           print (Info "Clicking 'More' to load additional articles...");;
           click_more
         else mret tt);;
        accumulate target fuel' articles
      else mret tt
  end.

(** Line 80, on the array [articles]; [n] is its 100:
    [articles.slice(0, n).sort((a, b) => b.timestamp - a.timestamp)]. *)
Definition select_and_sort (n : nat) (articles : ref) : M ref :=
  sample ← slice0 articles n;
  sort sample by_timestamp_desc.

(** Lines 82-104, on the array [top100]. *)
Definition report_and_verify (top100 : ref) : M unit :=
  print (Info "Sorting articles from newest to oldest...");;
  print (Info (String "010"%char "Final sorted list of 100 articles (newest to oldest):"));;
  print (Info "----------------------------------------");;
  ordered ← read top100;
  print_all (listing ordered);;
  print (Info "----------------------------------------");;
  print success_marker;;
  ordered ← read top100;
  match first_violation ordered with
  | Some (i, cur, prev) => throw (Error (sorting_error i cur prev))
  | None => mret tt
  end.

(** Lines 80-104. *)
Definition validate (n : nat) (articles : ref) : M unit :=
  top100 ← select_and_sort n articles;
  report_and_verify top100.

(** [try { body } catch (error) { handler(error) } finally { final }] *)
Definition try_catch_finally (body : M unit) (handler : Thrown -> M unit)
    (final : M unit) : M unit := fun st =>
  match body st with
  | (Normal _, st') => final st'
  | (Throw e, st') =>
      match handler e st' with
      | (Normal _, st'') => final st''
      | (Throw e', st'') =>
          match final st'' with
          | (Normal _, st3) => (Throw e', st3)
          | other => other
          end
      | (Diverge, st'') => (Diverge, st'')
      end
  | (Diverge, st') => (Diverge, st')
  end.

Definition TARGET : nat := 100.

(** The [try] of line 32 with its [catch] (106-108) and [finally] (108-112). *)
Definition guarded (body : M unit) : M unit :=
  try_catch_finally body
    (fun error => print (Failure error))
    (print (Info "Closing browser...");;
     close;;
     print (Success "Bot execution completed.")).

(** [validateArticleSorting], lines 26-113, once the browser is there:
    [chromium.launch] and [browser.newPage] (lines 29-30, before the [try])
    are taken to have resolved, giving the blank page of [initial], and
    [browser.close] to resolve. *)
Definition validateArticleSorting (fuel : nat) : M unit :=
  print (Info "Bot started: Validating Hacker News newest articles...");;
  guarded
    (print (Info "Navigating to Hacker News 'newest' page...");;
     goto;;
     articles ← new_array [];
     accumulate TARGET fuel articles;;
     validate TARGET articles).

(** a run of the program, from its start *)
Definition run (fuel : nat) : completion unit * State :=
  validateArticleSorting fuel initial.

End Site.

Arguments page {Page} s.
Arguments arrays {Page} s.
Arguments out {Page} s.
Arguments calls {Page} s.
Arguments contents {Page} a st.

(** what the [catch] block does to a state *)
Definition caught {Page : Type} (e : Thrown) (st : State Page) : State Page :=
  {| page := page st; arrays := arrays st; out := out st ++ [Failure e];
     calls := calls st |}.

(** what the [finally] block does to a state *)
Definition finished {Page : Type} (st : State Page) : State Page :=
  {| page := page st; arrays := arrays st;
     out := out st ++ [Info "Closing browser..."; Success "Bot execution completed."];
     calls := calls st ++ [Close] |}.

(** what lines 80-94 do to a state *)
Definition reported {Page : Type} (ordered : list Item) (st : State Page) : State Page :=
  {| page := page st; arrays := arrays st ++ [ordered];
     out := out st ++ report ordered; calls := calls st |}.

(** the state in which the loop starts, on the page [p] that [goto] reached *)
Definition started {Page : Type} (p : option Page) : State Page :=
  {| page := p; arrays := [];
     out := [ Info "Bot started: Validating Hacker News newest articles...";
              Info "Navigating to Hacker News 'newest' page..." ];
     calls := [Goto] |}.

Definition loop_start {Page : Type} (p : Page) : State Page :=
  {| page := Some p; arrays := [[]]; out := out (started (Some p)); calls := [Goto] |}.

(** What the loop may do to a state: append Items whose timestamp is not
    NaN to the array [articles] and leave every other array alone, print
    [Info] lines, and call the browser, clicking only under the guard. *)
Definition grows {Page : Type} (target : nat) (articles : ref) (st st' : State Page)
  : Prop :=
  exists (extra : list Item) (infos : list Output) (cs : list Call),
    arrays st' = <[articles := contents articles st ++ extra]> (arrays st) /\
    Forall not_nan extra /\
    out st' = out st ++ infos /\ forallb is_info infos = true /\
    calls st' = calls st ++ cs /\ clicks_guarded target articles cs = true.

End Bot.
Export Bot.

(** ** Relating two documents *)

(** Two documents list the same rows up to their ids: row by row, the same
    title element, and the same age link found through the row's id. *)
Definition same_listing (doc1 doc2 : Document) : Prop :=
  Forall2 (fun r1 r2 =>
             titleEl r1 = titleEl r2 /\
             age_href doc1 (score_selector (row_id r1)) =
             age_href doc2 (score_selector (row_id r2)))
          (rows doc1) (rows doc2).

(** ** Concrete samples and sites *)

Module Scenarios.

Definition item (t : string) (ts : number) : Item := {| title := t; timestamp := ts |}.

(** 100 Items with the timestamps 0, 1000, ..., 99000, oldest first *)
Definition rising_sample : list Item :=
  map (fun n => item ("Story " +:+ show_nat n) (Fin (1000 * Z.of_nat n))) (seq 0 100).


(** Scenario D: a row whose title text is empty *)
Definition empty_title_row : Row := {| row_id := Some "7"; titleEl := Some "" |}.

Definition empty_title_document : Document :=
  {| rows := [empty_title_row];
     age_href := fun sel =>
       if String.eqb sel "#score_7" then Some "item?id=500" else None |}.

(** an [href] whose digits denote a number beyond the doubles *)
Fixpoint nines (n : nat) : string :=
  match n with
  | O => EmptyString
  | S n' => String "9" (nines n')
  end.

(** an array that is not in descending order *)
Definition unsorted_pair : list Item := [item "a" (Fin 100); item "b" (Fin 300)].

(** A site of numbered stories: the row [n] has the id [n], and its age link
    is [item?id=n]. *)
Definition numbered_row (n : nat) : Row :=
  {| row_id := Some (show_nat n); titleEl := Some ("Story " +:+ show_nat n) |}.

Definition numbered_document (first count : nat) : Document :=
  {| rows := map numbered_row (seq first count);
     age_href := fun sel =>
       Some ("item?id=" +:+ String.substring 7 (String.length sel - 7) sel) |}.

(** the same stories, the ids prefixed with "x" *)
Definition renamed_row (n : nat) : Row :=
  {| row_id := Some ("x" +:+ show_nat n); titleEl := Some ("Story " +:+ show_nat n) |}.

Definition renamed_document (first count : nat) : Document :=
  {| rows := map renamed_row (seq first count);
     age_href := fun sel =>
       Some ("item?id=" +:+ String.substring 8 (String.length sel - 8) sel) |}.

(** page [p] shows the [size] stories from [p * size] on; there is always a
    [.morelink], to page [p + 1] *)
Definition paged (size : nat) (p : nat) : Document := numbered_document (p * size) size.
Definition paged_renamed (size : nat) (p : nat) : Document :=
  renamed_document (p * size) size.
Definition next_page (p : nat) : option nat := Some (S p).

(** a state with the store [h], nothing printed, no call made *)
Definition idle (h : Store) : State nat :=
  {| page := None; arrays := h; out := []; calls := [] |}.

(** 100 Items and one more, in two stores that differ beyond the 100th *)
Definition long_store_1 : Store := [rising_sample ++ [item "late" (Fin 5)]].
Definition long_store_2 : Store := [[]; rising_sample ++ [item "other" NaN; item "more" PInf]].

End Scenarios.

(** ** Further notions, for the properties beyond the claims *)

(** [v < 0], with NaN read as [+0] *)
Definition negative (v : number) : bool := gt (Fin 0) v.

Fixpoint all_digits (s : string) : bool :=
  match s with
  | EmptyString => true
  | String c s' => is_digit c && all_digits s'
  end.

Definition starts_with_digit (s : string) : bool :=
  match s with
  | EmptyString => false
  | String c _ => is_digit c
  end.

(** [s] starts with a white space code point *)
Definition starts_white (s : string) : bool :=
  match strip_space s with
  | Some _ => true
  | None => false
  end.

(** [s] ends with a white space code point: a suffix of it, not empty, is
    white space from end to end *)
Fixpoint ends_white (s : string) : bool :=
  match s with
  | EmptyString => false
  | String _ s' => all_white s || ends_white s'
  end.




(** the Items of an array with the timestamp [t], in the order of the array *)
Definition with_timestamp (t : number) (l : list Item) : list Item :=
  List.filter (fun it => bool_decide (timestamp it = t)) l.

(** The first [n] pages from [p] on, each reached from the one before by a
    click on [.morelink]; shorter than [n] when a page has no such link. *)
Fixpoint trail {Page : Type} (more : Page -> option Page) (n : nat) (p : Page)
  : list Page :=
  match n with
  | O => []
  | S n' => p :: match more p with
                 | Some p' => trail more n' p'
                 | None => []
                 end
  end.

(** what the extractions of a list of pages give, one after the other *)
Definition harvest {Page : Type} (document : Page -> Document) (pages : list Page)
  : list Item :=
  concat (map (fun p => evaluate (document p)) pages).

(** The calls a loop makes alternate: an evaluation, then a click, then an
    evaluation, ...; [expect_evaluate] tells which of the two is due. *)
Fixpoint alternates (expect_evaluate : bool) (cs : list Call) : bool :=
  match cs with
  | [] => true
  | Evaluate :: cs' => expect_evaluate && alternates false cs'
  | ClickMore _ :: cs' => negb expect_evaluate && alternates true cs'
  | _ :: _ => false
  end.

Definition is_close (c : Call) : bool :=
  match c with Close => true | _ => false end.

Definition is_evaluate (c : Call) : bool :=
  match c with Evaluate => true | _ => false end.

(** sites for the cases below *)
Module Cases.

(** a site whose pages show no story and always have a [.morelink] *)
Definition barren (p : nat) : Document := {| rows := []; age_href := fun _ => None |}.

(** a site of [pages] pages of [size] stories, the last without [.morelink] *)
Definition last_page (pages : nat) (p : nat) : option nat :=
  if (S p <? pages)%nat then Some (S p) else None.

(** a site whose [.morelink] reloads the page it is on *)
Definition same_page (p : nat) : option nat := Some p.

End Cases.
(** * Properties *)

(** ** Numbers *)

Lemma round_pos_sign (n : Z) : 0 < n -> sign (round_pos n) = Some 1.
Proof.
  intros Hn. unfold round_pos.
  destruct (Z.log2 n <? 53) eqn:He.
  - simpl. f_equal. lia.
  - apply Z.ltb_ge in He.
    set (s := Z.log2 n - 52).
    assert (Hs : 0 < s) by (unfold s; lia).
    set (q := Z.shiftr n s).
    assert (Hq : 1 <= q).
    { unfold q. rewrite Z.shiftr_div_pow2 by lia.
      apply Z.div_le_lower_bound; [lia|].
      destruct (Z.log2_spec n Hn) as [Hlo _].
      assert (2 ^ s <= 2 ^ Z.log2 n) by (apply Z.pow_le_mono_r; unfold s; lia).
      lia. }
    match goal with |- context [Z.shiftl ?q' s] => set (q2 := q') end.
    assert (Hq2 : 1 <= q2).
    { unfold q2. destruct (_ || _); lia. }
    destruct (2 ^ 1024 <=? Z.shiftl q2 s); [reflexivity|].
    simpl. f_equal.
    rewrite Z.shiftl_mul_pow2 by lia.
    assert (0 < 2 ^ s) by (apply Z.pow_pos_nonneg; lia).
    assert (0 < q2 * 2 ^ s) by nia. lia.
Qed.

Lemma sign_neg (a : number) : sign (neg a) = Z.opp <$> sign a.
Proof. destruct a; simpl; try reflexivity. f_equal. lia. Qed.

Lemma to_number_sign (z : Z) : sign (to_number z) = Some (Z.sgn z).
Proof.
  destruct z as [|p|p]; simpl.
  - reflexivity.
  - apply round_pos_sign. lia.
  - rewrite sign_neg, round_pos_sign by lia. reflexivity.
Qed.

Lemma sign_isNaN (a : number) : isNaN a = false <-> is_Some (sign a).
Proof.
  destruct a; simpl; split; intros H; try reflexivity; try discriminate; eauto.
  destruct H as [? H]. discriminate.
Qed.

Lemma to_number_isNaN (z : Z) : isNaN (to_number z) = false.
Proof. apply sign_isNaN. rewrite to_number_sign. eauto. Qed.

Lemma positive_sign (v : number) : positive v = true <-> sign v = Some 1.
Proof.
  unfold positive. destruct v as [z| | |]; simpl.
  - rewrite Z.ltb_lt. split; intros H.
    + f_equal. lia.
    + inversion H. lia.
  - tauto.
  - split; discriminate.
  - split; discriminate.
Qed.

(** The test the sort makes on the comparator of line 80,
    [b.timestamp - a.timestamp > 0], is [b.timestamp > a.timestamp]: the
    rounding of the difference keeps its sign. *)
Lemma positive_sub (a b : number) : positive (sub b a) = gt b a.
Proof.
  apply eq_true_iff_eq. rewrite positive_sign.
  destruct a as [x| | |], b as [y| | |]; simpl;
    try (split; (reflexivity || discriminate)).
  rewrite to_number_sign, Z.ltb_lt. split; intros H.
  - inversion H. lia.
  - f_equal. lia.
Qed.

Lemma gt_le (a b : number) : gt a b = true -> le b a = true.
Proof.
  destruct a, b; simpl; try reflexivity; try discriminate.
  rewrite Z.ltb_lt, Z.leb_le. lia.
Qed.

Lemma not_gt_le (a b : number) :
  isNaN a = false -> isNaN b = false -> gt a b = false -> le a b = true.
Proof.
  destruct a, b; simpl; try reflexivity; try discriminate.
  rewrite Z.ltb_ge, Z.leb_le. lia.
Qed.

Lemma le_not_gt (a b : number) : le a b = true -> gt a b = false.
Proof.
  destruct a, b; simpl; try reflexivity; try discriminate.
  rewrite Z.ltb_ge, Z.leb_le. lia.
Qed.

Lemma le_isNaN (a b : number) : le a b = true -> isNaN a = false /\ isNaN b = false.
Proof. destruct a, b; simpl; try discriminate; auto. Qed.


Lemma le_trans (a b c : number) : le a b = true -> le b c = true -> le a c = true.
Proof.
  destruct a, b, c; simpl; try reflexivity; try discriminate.
  rewrite !Z.leb_le. lia.
Qed.

Lemma le_antisym (a b : number) : le a b = true -> le b a = true -> a = b.
Proof.
  destruct a, b; simpl; try reflexivity; try discriminate.
  rewrite !Z.leb_le. intros. f_equal. lia.
Qed.

Lemma mul_1000_isNaN (a : number) : isNaN (mul a (Fin 1000)) = isNaN a.
Proof.
  destruct a as [z| | |]; simpl; try reflexivity.
  apply to_number_isNaN.
Qed.

Lemma mul_1000_sign (a : number) : sign (mul a (Fin 1000)) = sign a.
Proof.
  destruct a as [z| | |]; simpl; try reflexivity.
  rewrite to_number_sign. f_equal. lia.
Qed.

Example round_ex :
  to_number (2^53 + 1) = Fin (2^53) /\ to_number (2^53 + 3) = Fin (2^53 + 4) /\
  to_number (2^1024 - 2^970) = PInf /\
  to_number (2^1024 - 2^970 - 1) = Fin (2^1024 - 2^971).
Proof. vm_compute. auto. Qed.

(** ** Strings *)

Example show_nat_12 : show_nat 12 = "12"%string.
Proof. reflexivity. Qed.

Example match_digits_href :
  match_digits "https://news.ycombinator.com/item?id=4123 x 77" = Some "4123"%string.
Proof. reflexivity. Qed.

Example trim_ex : trim "  a b  " = "a b"%string.
Proof. reflexivity. Qed.

Example parse_ex : mul (parseInt (Some "4123"%string)) (Fin 1000) = Fin 4123000.
Proof. reflexivity. Qed.

Lemma match_digits_has_digit (s : string) : is_Some (match_digits s) <-> has_digit s = true.
Proof.
  induction s as [|c s IH]; simpl.
  - split; [intros [? H]|intros H]; discriminate.
  - destruct (is_digit c); simpl; [|exact IH].
    split; eauto.
Qed.

(** What [match] returns starts with a digit. *)
Lemma match_digits_prefix (s ds : string) :
  match_digits s = Some ds -> exists c r, digits_prefix ds = String c r.
Proof.
  induction s as [|c s IH]; simpl; [discriminate|].
  destruct (is_digit c) eqn:Hc; [|exact IH].
  intros [= <-]. simpl. rewrite Hc. eauto.
Qed.

Lemma decimal_from_nonneg (s : string) (acc : Z) :
  0 <= acc -> digits_prefix s = s -> 0 <= decimal_from acc s.
Proof.
  revert acc. induction s as [|c s IH]; simpl; intros acc Hacc Hs; [lia|].
  destruct (is_digit c) eqn:Hc; [|discriminate].
  injection Hs as Hs. apply IH; [|exact Hs].
  unfold is_digit in Hc. apply andb_true_iff in Hc as [H1 H2].
  apply N.leb_le in H1, H2. unfold digit_value. lia.
Qed.

Lemma digits_prefix_idem (s : string) : digits_prefix (digits_prefix s) = digits_prefix s.
Proof.
  induction s as [|c s IH]; simpl; [reflexivity|].
  destruct (is_digit c) eqn:Hc; simpl; [|reflexivity].
  rewrite Hc, IH. reflexivity.
Qed.

(** The timestamp of line 53 is NaN exactly when the [href] has no digit;
    otherwise it is not negative. *)
Lemma timestamp_isNaN (href : string) :
  isNaN (mul (parseInt (match_digits href)) (Fin 1000)) = negb (has_digit href).
Proof.
  rewrite mul_1000_isNaN.
  destruct (match_digits href) as [ds|] eqn:Hm.
  - assert (Hd : has_digit href = true) by (apply match_digits_has_digit; eauto).
    rewrite Hd. simpl.
    destruct (match_digits_prefix _ _ Hm) as (c & r & Hp).
    rewrite Hp. apply to_number_isNaN.
  - destruct (has_digit href) eqn:Hd; [|reflexivity].
    apply match_digits_has_digit in Hd as [? Hd]. congruence.
Qed.

Lemma timestamp_not_negative (href : string) :
  le (Fin 0) (mul (parseInt (match_digits href)) (Fin 1000)) = negb (isNaN (mul (parseInt (match_digits href)) (Fin 1000))).
Proof.
  rewrite mul_1000_isNaN.
  destruct (match_digits href) as [ds|] eqn:Hm; [|reflexivity].
  simpl. destruct (digits_prefix ds) as [|c r] eqn:Hp; [reflexivity|].
  rewrite <- Hp. rewrite to_number_isNaN. simpl.
  pose proof (decimal_from_nonneg (digits_prefix ds) 0 ltac:(lia) (digits_prefix_idem ds)) as Hnn.
  fold (decimal (digits_prefix ds)) in Hnn.
  set (n := to_number (decimal (digits_prefix ds))).
  pose proof (mul_1000_sign n) as Hs.
  unfold n in Hs at 2. rewrite to_number_sign in Hs.
  destruct (mul n (Fin 1000)) as [z| | |]; simpl in *; try reflexivity; try discriminate.
  - inversion Hs. apply Z.leb_le. lia.
  - inversion Hs. lia.
Qed.

(** ** The sort *)

Section SortFacts.
Context {A : Type}.
Variable cmp : A -> A -> number.

Lemma insert_by_perm (x : A) (l : list A) : insert_by cmp x l ≡ₚ x :: l.
Proof.
  induction l as [|y l IH]; simpl; [reflexivity|].
  destruct (positive (cmp x y)); [|reflexivity].
  rewrite IH. apply perm_swap.
Qed.

Lemma sort_by_perm (l : list A) : sort_by cmp l ≡ₚ l.
Proof.
  induction l as [|x l IH]; simpl; [reflexivity|].
  rewrite insert_by_perm, IH. reflexivity.
Qed.

Lemma sort_by_length (l : list A) : length (sort_by cmp l) = length l.
Proof. apply Permutation_length, sort_by_perm. Qed.

End SortFacts.

Lemma insert_desc_unfold (x y : Item) (l : list Item) :
  insert_by by_timestamp_desc x (y :: l) =
  if gt (timestamp y) (timestamp x) then y :: insert_by by_timestamp_desc x l
  else x :: y :: l.
Proof. simpl. unfold by_timestamp_desc. rewrite positive_sub. reflexivity. Qed.

Lemma descending_from_insert (p x : Item) (l : list Item) :
  le (timestamp x) (timestamp p) = true ->
  descending_from p l = true ->
  descending_from p (insert_by by_timestamp_desc x l) = true.
Proof.
  revert p. induction l as [|y l IH]; intros p Hxp Hd.
  - simpl. rewrite Hxp. reflexivity.
  - rewrite insert_desc_unfold. simpl in Hd.
    apply andb_true_iff in Hd as [Hyp Hd].
    destruct (gt (timestamp y) (timestamp x)) eqn:Hgt; simpl.
    + rewrite Hyp. simpl. apply IH; [apply gt_le, Hgt | exact Hd].
    + rewrite Hxp, Hd, andb_true_r. simpl.
      apply not_gt_le; [apply (le_isNaN _ _ Hyp) | apply (le_isNaN _ _ Hxp) | exact Hgt].
Qed.

Lemma descending_insert (x : Item) (l : list Item) :
  not_nan x -> Forall not_nan l ->
  descending l = true -> descending (insert_by by_timestamp_desc x l) = true.
Proof.
  intros Hx Hl Hd. destruct l as [|y l]; [reflexivity|].
  rewrite insert_desc_unfold.
  destruct (gt (timestamp y) (timestamp x)) eqn:Hgt; simpl.
  - apply descending_from_insert; [apply gt_le, Hgt | exact Hd].
  - simpl in Hd. rewrite Hd, andb_true_r.
    apply not_gt_le; [|exact Hx|exact Hgt].
    apply Forall_cons in Hl as [Hy _]. exact Hy.
Qed.

(** Sorting timestamps none of which is NaN gives a descending array. *)
Lemma sort_descending (l : list Item) :
  Forall not_nan l -> descending (sort_by by_timestamp_desc l) = true.
Proof.
  induction l as [|x l IH]; intros Hl; [reflexivity|].
  apply Forall_cons in Hl as [Hx Hl]. simpl.
  apply descending_insert; [exact Hx| |apply IH, Hl].
  rewrite (sort_by_perm by_timestamp_desc l). exact Hl.
Qed.

(** [descending], by positions. *)
Lemma descending_from_lookup (p : Item) (l : list Item) :
  descending_from p l = true <->
  forall (i : nat) (prev cur : Item),
    (p :: l) !! i = Some prev -> (p :: l) !! S i = Some cur ->
    le (timestamp cur) (timestamp prev) = true.
Proof.
  revert p. induction l as [|y l IH]; intros p; simpl.
  - split; [|reflexivity]. intros _ i prev cur _ H.
    destruct i; discriminate.
  - rewrite andb_true_iff, IH. split.
    + intros [Hyp Hrest] [|i] prev cur H1 H2.
      * simpl in *. congruence.
      * apply (Hrest i); assumption.
    + intros H. split.
      * apply (H 0%nat); reflexivity.
      * intros i prev cur H1 H2. apply (H (S i)); assumption.
Qed.

Lemma descending_lookup (l : list Item) :
  descending l = true <->
  forall (i : nat) (prev cur : Item),
    l !! i = Some prev -> l !! S i = Some cur ->
    le (timestamp cur) (timestamp prev) = true.
Proof.
  destruct l as [|p l]; [|apply descending_from_lookup].
  split; [|reflexivity]. intros _ i prev cur H. discriminate.
Qed.

(** ** The scan *)

Lemma scan_from_descending (i : nat) (p : Item) (l : list Item) :
  descending_from p l = true -> scan_from i p l = None.
Proof.
  revert i p. induction l as [|y l IH]; intros i p Hd; [reflexivity|].
  simpl in *. apply andb_true_iff in Hd as [Hyp Hd].
  rewrite (le_not_gt _ _ Hyp). apply IH, Hd.
Qed.

Lemma first_violation_descending (l : list Item) :
  descending l = true -> first_violation l = None.
Proof. destruct l; [reflexivity|]. apply scan_from_descending. Qed.

Lemma scan_from_Some (k : nat) (p : Item) (l : list Item) (i : nat) (cur prev : Item) :
  scan_from k p l = Some (i, cur, prev) ->
  exists j : nat, i = (k + j)%nat /\ (p :: l) !! j = Some prev /\
    (p :: l) !! S j = Some cur /\ gt (timestamp cur) (timestamp prev) = true /\
    forall (j' : nat) (a b : Item), (j' < j)%nat ->
      (p :: l) !! j' = Some a -> (p :: l) !! S j' = Some b ->
      gt (timestamp b) (timestamp a) = false.
Proof.
  revert k p. induction l as [|y l IH]; intros k p H; [discriminate|].
  simpl in H. destruct (gt (timestamp y) (timestamp p)) eqn:Hgt.
  - injection H as <- <- <-. exists 0%nat.
    repeat split; try reflexivity; [lia|exact Hgt|]. intros; lia.
  - destruct (IH _ _ H) as (j & -> & H1 & H2 & H3 & H4).
    exists (S j). repeat split; try assumption; [lia|].
    intros [|j'] a b Hlt Ha Hb.
    + simpl in *. congruence.
    + apply (H4 j'); [lia|assumption|assumption].
Qed.

(** What the scan reports is the first position [i >= 1] whose timestamp is
    greater than the one before it. *)
Lemma first_violation_Some (l : list Item) (i : nat) (cur prev : Item) :
  first_violation l = Some (i, cur, prev) ->
  exists j : nat, i = S j /\ l !! j = Some prev /\ l !! i = Some cur /\
    gt (timestamp cur) (timestamp prev) = true /\
    forall (j' : nat) (a b : Item), (j' < j)%nat ->
      l !! j' = Some a -> l !! S j' = Some b ->
      gt (timestamp b) (timestamp a) = false.
Proof.
  destruct l as [|p l]; [discriminate|]. intros H.
  destruct (scan_from_Some _ _ _ _ _ _ H) as (j & -> & H1 & H2 & H3 & H4).
  exists j. repeat split; assumption.
Qed.

(** ** A descending arrangement of distinct timestamps is unique *)

Lemma descending_from_all (p : Item) (l : list Item) :
  descending_from p l = true ->
  Forall (fun y => le (timestamp y) (timestamp p) = true) l.
Proof.
  revert p. induction l as [|y l IH]; intros p Hd; [constructor|].
  simpl in Hd. apply andb_true_iff in Hd as [Hyp Hd].
  constructor; [exact Hyp|].
  eapply Forall_impl; [apply IH, Hd|].
  intros z Hz. simpl in Hz. eapply le_trans; eassumption.
Qed.

Lemma descending_tail (x : Item) (l : list Item) :
  descending (x :: l) = true -> descending l = true.
Proof.
  destruct l as [|y l]; [reflexivity|]. simpl.
  intros H. apply andb_true_iff in H. tauto.
Qed.

Lemma descending_unique (o1 o2 : list Item) :
  NoDup (map timestamp o1) -> o1 ≡ₚ o2 ->
  descending o1 = true -> descending o2 = true -> o1 = o2.
Proof.
  revert o2. induction o1 as [|x l1 IH]; intros o2 Hnd Hp H1 H2.
  - apply Permutation_nil in Hp. congruence.
  - destruct o2 as [|y l2]; [apply Permutation_sym, Permutation_nil in Hp; discriminate|].
    assert (Hxy : x = y).
    { destruct (decide (x = y)) as [|Hne]; [assumption|exfalso].
      assert (Hx : x ∈ l2).
      { assert (Hin : x ∈ y :: l2) by (rewrite <- Hp; left).
        apply elem_of_cons in Hin as [|]; [contradiction|assumption]. }
      assert (Hy : y ∈ l1).
      { assert (Hin : y ∈ x :: l1) by (rewrite Hp; left).
        apply elem_of_cons in Hin as [|]; [congruence|assumption]. }
      pose proof (descending_from_all _ _ H1) as F1.
      pose proof (descending_from_all _ _ H2) as F2.
      rewrite Forall_forall in F1, F2.
      pose proof (le_antisym _ _ (F1 _ Hy) (F2 _ Hx)) as Heq.
      simpl in Hnd. apply NoDup_cons in Hnd as [Hnot _].
      apply Hnot. rewrite <- Heq. apply list_elem_of_fmap_2. exact Hy. }
    subst y. f_equal.
    apply IH.
    + simpl in Hnd. apply NoDup_cons in Hnd. tauto.
    + eapply Permutation_cons_inv, Hp.
    + eapply descending_tail, H1.
    + eapply descending_tail, H2.
Qed.

(** ** Extraction *)

Lemma visit_app (doc : Document) (results : list Item) (row : Row) :
  visit doc results row = results ++ visit doc [] row.
Proof.
  unfold visit.
  destruct (titleEl row), (age_href doc (score_selector (row_id row)));
    rewrite ?app_nil_r; try reflexivity.
  destruct (negb _); rewrite ?app_nil_r; reflexivity.
Qed.

Lemma visit_admitted (doc : Document) (row : Row) :
  visit doc [] row = option_list (admitted doc row).
Proof.
  unfold admitted, visit.
  destruct (titleEl row), (age_href doc (score_selector (row_id row))); try reflexivity.
  destruct (negb _); reflexivity.
Qed.

Lemma foldl_visit (doc : Document) (rs : list Row) (results : list Item) :
  foldl (visit doc) results rs = results ++ omap (admitted doc) rs.
Proof.
  revert results. induction rs as [|r rs IH]; intros results; simpl.
  - rewrite app_nil_r. reflexivity.
  - rewrite IH, visit_app, visit_admitted, <- app_assoc.
    destruct (admitted doc r); reflexivity.
Qed.

(** The extraction keeps, in document order, the Item of each row that
    gives one. *)
Lemma evaluate_omap (doc : Document) : evaluate doc = omap (admitted doc) (rows doc).
Proof. unfold evaluate. apply foldl_visit. Qed.

Lemma admitted_Some (doc : Document) (row : Row) (it : Item) :
  admitted doc row = Some it <->
  exists text href : string,
    titleEl row = Some text /\
    age_href doc (score_selector (row_id row)) = Some href /\
    has_digit href = true /\
    it = {| title := trim text;
            timestamp := mul (parseInt (match_digits href)) (Fin 1000) |}.
Proof.
  unfold admitted, visit.
  destruct (titleEl row) as [text|];
    [destruct (age_href doc (score_selector (row_id row))) as [href|]|].
  - rewrite timestamp_isNaN, negb_involutive.
    destruct (has_digit href) eqn:Hd; simpl.
    + split.
      * intros [= <-]. exists text, href. auto.
      * intros (t & h & [= <-] & [= <-] & _ & ->). reflexivity.
    + split; [discriminate|].
      intros (t & h & _ & [= <-] & Hd' & _). congruence.
  - split; [discriminate|]. intros (t & h & _ & H & _). discriminate.
  - split; [discriminate|]. intros (t & h & H & _). discriminate.
Qed.

Lemma admitted_not_nan (doc : Document) (row : Row) (it : Item) :
  admitted doc row = Some it -> not_nan it.
Proof.
  intros H. apply admitted_Some in H as (text & href & _ & _ & Hd & ->).
  unfold not_nan. simpl. rewrite timestamp_isNaN, Hd. reflexivity.
Qed.

(** No timestamp of an extracted Item is NaN (the guard of line 54). *)
Lemma evaluate_not_nan (doc : Document) : Forall not_nan (evaluate doc).
Proof.
  rewrite evaluate_omap. apply Forall_forall. intros it Hin.
  apply list_elem_of_omap in Hin as (row & _ & Hrow).
  eapply admitted_not_nan, Hrow.
Qed.

(** ** The store, the loop and the run *)

Section SiteFacts.
Variable Page : Type.
Variable document : Page -> Document.
Variable more : Page -> option Page.
Variable newest : option Page.

Local Abbreviation State := (State Page).
Local Abbreviation accumulate := (accumulate Page document more).
Local Abbreviation validate := (validate Page).
Local Abbreviation select_and_sort := (select_and_sort Page).
Local Abbreviation report_and_verify := (report_and_verify Page).
Local Abbreviation guarded := (guarded Page).
Local Abbreviation run := (run Page document more newest).

Lemma contents_insert (a : ref) (items : list Item) (h : Store) (p : option Page)
    (o : list Output) (c : list Call) :
  (a < length h)%nat ->
  contents a {| page := p; arrays := <[a := items]> h; out := o; calls := c |} = items.
Proof.
  intros Ha. unfold contents. cbn [arrays].
  rewrite list_lookup_insert_eq by exact Ha. reflexivity.
Qed.

Lemma contents_fresh (x : list Item) (h : Store) (p : option Page)
    (o : list Output) (c : list Call) :
  contents (length h) {| page := p; arrays := h ++ [x]; out := o; calls := c |} = x.
Proof.
  unfold contents. cbn [arrays].
  rewrite list_lookup_middle by reflexivity. reflexivity.
Qed.

(** One turn of the loop. *)
Lemma accumulate_step (target fuel : nat) (a : ref) (st : State) :
  (a < length (arrays st))%nat ->
  accumulate target (S fuel) a st =
  let n := length (contents a st) in
  if (n <? target)%nat then
    let new := from_option (fun p => evaluate (document p)) [] (page st) in
    let h := <[a := contents a st ++ new]> (arrays st) in
    let o := (out st ++ [Info ("Extracting articles... Current count: " +:+ show_nat n)])
             ++ [Info ("Extracted " +:+ show_nat (length new) +:+ " new articles from page.")] in
    let c := calls st ++ [Evaluate] in
    if (length (contents a st ++ new) <? target)%nat then
      let o' := o ++ [Info "Clicking 'More' to load additional articles..."] in
      let c' := c ++ [ClickMore h] in
      match page st ≫= more with
      | Some p => accumulate target fuel a {| page := Some p; arrays := h; out := o'; calls := c' |}
      | None => (Throw TimeoutError, {| page := page st; arrays := h; out := o'; calls := c' |})
      end
    else accumulate target fuel a {| page := page st; arrays := h; out := o; calls := c |}
  else (Normal tt, st).
Proof.
  intros Ha. cbn zeta.
  change (accumulate target (S fuel) a st) with
    ((n ← array_length Page a;
     if (n <? target)%nat then
       print Page (Info ("Extracting articles... Current count: " +:+ show_nat n));;
       newArticles ← page_evaluate Page document;
       print Page (Info ("Extracted " +:+ show_nat (length newArticles)
                    +:+ " new articles from page."));;
       push Page a newArticles;;
       n' ← array_length Page a;
       (if (n' <? target)%nat then
          print Page (Info "Clicking 'More' to load additional articles...");;
          click_more Page more
        else mret tt);;
       accumulate target fuel a
     else mret tt) st).
  unfold mbind, M_bind, mret, M_ret, array_length, print, page_evaluate, push,
    click_more, called, set_page, set_arrays, contents.
  cbn [page arrays out calls].
  destruct (length _ <? target)%nat; [|reflexivity].
  rewrite list_lookup_insert_eq by exact Ha. cbn [from_option id].
  destruct (length _ <? target)%nat; [|reflexivity].
  cbn [page arrays out calls].
  destruct (page st) as [p0|]; [|reflexivity].
  cbn [mbind option_bind].
  destruct (more p0); reflexivity.
Qed.


Lemma insert_contents_id (a : ref) (st : State) :
  (a < length (arrays st))%nat -> <[a := contents a st]> (arrays st) = arrays st.
Proof.
  intros Ha. apply list_insert_id. unfold contents.
  destruct (lookup_lt_is_Some_2 _ _ Ha) as [x ->]. reflexivity.
Qed.

Lemma grows_contents (target : nat) (a : ref) (st st' : State) :
  (a < length (arrays st))%nat -> grows target a st st' ->
  exists extra : list Item,
    contents a st' = contents a st ++ extra /\ Forall not_nan extra /\
    length (arrays st') = length (arrays st).
Proof.
  intros Ha (extra & infos & cs & Harr & Hnn & _).
  exists extra. unfold contents at 1. rewrite Harr.
  rewrite list_lookup_insert_eq by exact Ha.
  rewrite length_insert. auto.
Qed.

Lemma grows_refl (target : nat) (a : ref) (st : State) :
  (a < length (arrays st))%nat -> grows target a st st.
Proof.
  intros Ha. exists [], [], [].
  rewrite !app_nil_r, insert_contents_id by exact Ha.
  repeat split; auto.
Qed.

Lemma clicks_guarded_app (target : nat) (a : ref) (cs cs' : list Call) :
  clicks_guarded target a (cs ++ cs') =
  clicks_guarded target a cs && clicks_guarded target a cs'.
Proof. unfold clicks_guarded, clicks. rewrite omap_app. apply forallb_app. Qed.

Lemma grows_trans (target : nat) (a : ref) (st1 st2 st3 : State) :
  (a < length (arrays st1))%nat ->
  grows target a st1 st2 -> grows target a st2 st3 -> grows target a st1 st3.
Proof.
  intros Ha H12 H23.
  destruct (grows_contents _ _ _ _ Ha H12) as (e12 & Hc & _ & Hlen).
  destruct H12 as (e1 & i1 & c1 & Ha1 & Hn1 & Ho1 & Hi1 & Hc1 & Hg1).
  destruct H23 as (e2 & i2 & c2 & Ha2 & Hn2 & Ho2 & Hi2 & Hc2 & Hg2).
  exists (e1 ++ e2), (i1 ++ i2), (c1 ++ c2).
  assert (Hc1' : contents a st2 = contents a st1 ++ e1).
  { unfold contents at 1. rewrite Ha1, list_lookup_insert_eq by exact Ha. reflexivity. }
  repeat split.
  - rewrite Ha2, Hc1', Ha1, list_insert_insert_eq, app_assoc. reflexivity.
  - apply Forall_app; auto.
  - rewrite Ho2, Ho1, app_assoc. reflexivity.
  - rewrite forallb_app, Hi1, Hi2. reflexivity.
  - rewrite Hc2, Hc1, app_assoc. reflexivity.
  - rewrite clicks_guarded_app, Hg1, Hg2. reflexivity.
Qed.

(** The loop only grows the state; when it ends, the array has reached the
    target; what it throws is the click's timeout. *)
Lemma accumulate_grows (target fuel : nat) (a : ref) (st : State) :
  (a < length (arrays st))%nat ->
  grows target a st (accumulate target fuel a st).2 /\
  match (accumulate target fuel a st).1 with
  | Normal _ => (target <= length (contents a (accumulate target fuel a st).2))%nat
  | Throw e => e = TimeoutError
  | Diverge => True
  end.
Proof.
  revert st. induction fuel as [|fuel IH]; intros st Ha.
  - simpl. split; [apply grows_refl, Ha | exact I].
  - rewrite accumulate_step by exact Ha. cbn zeta.
    set (new := from_option (fun p => evaluate (document p)) [] (page st)).
    assert (Hnew : Forall not_nan new).
    { unfold new. destruct (page st); [apply evaluate_not_nan | constructor]. }
    destruct (length (contents a st) <? target)%nat eqn:Hn.
    2:{ simpl. split; [apply grows_refl, Ha | apply Nat.ltb_ge, Hn]. }
    destruct (length (contents a st ++ new) <? target)%nat eqn:Hn'.
    + destruct (page st ≫= more) as [p|].
      * match goal with |- context [accumulate _ _ _ ?s] => set (st2 := s) end.
        assert (Ha2 : (a < length (arrays st2))%nat)
          by (unfold st2; cbn [arrays]; rewrite length_insert; exact Ha).
        destruct (IH st2 Ha2) as [Hg Hc]. split; [|exact Hc].
        eapply grows_trans; [exact Ha| |exact Hg].
        eexists new, _, [Evaluate; ClickMore _]. unfold st2. cbn [arrays out calls].
        repeat split; [exact Hnew|rewrite <- !app_assoc; reflexivity|reflexivity
                      |rewrite <- app_assoc; reflexivity|].
        unfold clicks_guarded. cbn [clicks omap list_omap forallb].
        rewrite list_lookup_insert_eq by exact Ha. cbn [from_option id].
        rewrite Hn'. reflexivity.
      * cbn [fst snd]. split; [|reflexivity].
        eexists new, _, [Evaluate; ClickMore _]. cbn [arrays out calls].
        repeat split; [exact Hnew|rewrite <- !app_assoc; reflexivity|reflexivity
                      |rewrite <- app_assoc; reflexivity|].
        unfold clicks_guarded. cbn [clicks omap list_omap forallb].
        rewrite list_lookup_insert_eq by exact Ha. cbn [from_option id].
        rewrite Hn'. reflexivity.
    + match goal with |- context [accumulate _ _ _ ?s] => set (st2 := s) end.
      assert (Ha2 : (a < length (arrays st2))%nat)
        by (unfold st2; cbn [arrays]; rewrite length_insert; exact Ha).
      destruct (IH st2 Ha2) as [Hg Hc]. split; [|exact Hc].
      eapply grows_trans; [exact Ha| |exact Hg].
      eexists new, _, [Evaluate]. unfold st2. cbn [arrays out calls].
      repeat split; [exact Hnew|rewrite <- !app_assoc; reflexivity|reflexivity].
Qed.


Lemma select_and_sort_spec (n : nat) (a : ref) (st : State) :
  select_and_sort n a st =
  (Normal (length (arrays st)),
   {| page := page st; arrays := arrays st ++ [top_sorted n (contents a st)];
      out := out st; calls := calls st |}).
Proof.
  unfold select_and_sort, mbind, M_bind, slice0, new_array, sort, set_arrays, contents.
  cbn [page arrays out calls].
  rewrite list_lookup_middle by reflexivity. cbn [from_option id].
  rewrite insert_app_r_alt by reflexivity. rewrite Nat.sub_diag. reflexivity.
Qed.

Lemma report_and_verify_spec (top100 : ref) (st : State) :
  report_and_verify top100 st =
  (verify (contents top100 st),
   {| page := page st; arrays := arrays st;
      out := out st ++ report (contents top100 st); calls := calls st |}).
Proof.
  unfold report_and_verify, verify, report, mbind, M_bind, mret, M_ret, print,
    print_all, read, throw, contents.
  cbn [page arrays out calls].
  rewrite <- !app_assoc. cbn [app].
  destruct (first_violation _) as [[[i cur] prev]|]; reflexivity.
Qed.

(** Lines 80-104: the sample is copied into a fresh array, which is sorted,
    printed and scanned. *)
Lemma validate_spec (n : nat) (a : ref) (st : State) :
  validate n a st =
  (verify (top_sorted n (contents a st)), reported (top_sorted n (contents a st)) st).
Proof.
  unfold validate, mbind, M_bind. rewrite select_and_sort_spec.
  rewrite report_and_verify_spec, !contents_fresh. reflexivity.
Qed.

Lemma guarded_spec (body : M Page unit) (st : State) :
  guarded body st =
  match body st with
  | (Normal _, st') => (Normal tt, finished st')
  | (Throw e, st') => (Normal tt, finished (caught e st'))
  | (Diverge, st') => (Diverge, st')
  end.
Proof.
  unfold guarded, try_catch_finally.
  destruct (body st) as [[u|e|] st']; try reflexivity.
  - unfold mbind, M_bind, print, close, called, finished. cbn [page arrays out calls].
    rewrite <- app_assoc. reflexivity.
  - unfold mbind, M_bind, print, close, called, finished, caught.
    cbn [page arrays out calls]. rewrite <- app_assoc. reflexivity.
Qed.


(** The run, case by case. *)
Lemma run_eq (fuel : nat) :
  run fuel =
  match newest with
  | None => (Normal tt, finished (caught NavigationError (started None)))
  | Some p =>
      match accumulate TARGET fuel 0 (loop_start p) with
      | (Normal _, st) =>
          let ordered := top_sorted TARGET (contents 0 st) in
          match verify ordered with
          | Normal _ => (Normal tt, finished (reported ordered st))
          | Throw e => (Normal tt, finished (caught e (reported ordered st)))
          | Diverge => (Diverge, reported ordered st)
          end
      | (Throw e, st) => (Normal tt, finished (caught e st))
      | (Diverge, st) => (Diverge, st)
      end
  end.
Proof.
  unfold run, validateArticleSorting, initial.
  unfold mbind at 1, M_bind at 1, print at 1. cbn [page arrays out calls app].
  rewrite guarded_spec.
  unfold mbind at 1, M_bind at 1, print at 1. cbn [page arrays out calls app].
  unfold mbind at 1, M_bind at 1, goto, called, set_page. cbn [page arrays out calls app].
  destruct newest as [p|]; [|reflexivity].
  unfold mbind at 1, M_bind at 1, new_array, set_arrays. cbn [page arrays out calls app length].
  unfold mbind at 1, M_bind at 1.
  change {| page := Some p; arrays := [[]]; out := _; calls := [Goto] |} with (loop_start p).
  destruct (accumulate TARGET fuel 0 (loop_start p)) as [[u|e|] st]; try reflexivity.
  rewrite validate_spec. cbn zeta.
  destruct (verify _) as [u'|e|]; reflexivity.
Qed.

Lemma loop_start_grows (fuel : nat) (p : Page) :
  let r := accumulate TARGET fuel 0 (loop_start p) in
  exists (items : list Item) (infos : list Output),
    contents 0 r.2 = items /\ Forall not_nan items /\
    out r.2 = out (started (Some p)) ++ infos /\ forallb is_info infos = true /\
    clicks_guarded TARGET 0 (calls r.2) = true /\
    match r.1 with
    | Normal _ => (TARGET <= length items)%nat
    | Throw e => e = TimeoutError
    | Diverge => True
    end.
Proof.
  intros r.
  assert (Ha : (0 < length (arrays (loop_start p)))%nat) by (simpl; lia).
  destruct (accumulate_grows TARGET fuel 0 _ Ha) as [Hg Hc]. fold r in Hg, Hc.
  destruct (grows_contents _ _ _ _ Ha Hg) as (extra & Hcont & Hnn & _).
  destruct Hg as (_ & infos & cs & _ & _ & Hout & Hinfos & Hcalls & Hguard).
  exists extra, infos. repeat split; try assumption.
  - rewrite Hcalls. rewrite clicks_guarded_app, Hguard. reflexivity.
  - destruct r.1; [|exact Hc|exact I]. rewrite Hcont in Hc. exact Hc.
Qed.


(** The three ways a turn of the loop goes on. *)
Lemma accumulate_done (target fuel : nat) (a : ref) (st : State) :
  (a < length (arrays st))%nat -> (target <= length (contents a st))%nat ->
  accumulate target (S fuel) a st = (Normal tt, st).
Proof.
  intros Ha Hn. rewrite accumulate_step by exact Ha. cbn zeta.
  apply Nat.ltb_ge in Hn. rewrite Hn. reflexivity.
Qed.

Lemma accumulate_turn_click (target fuel : nat) (a : ref) (st : State) (p p' : Page) :
  (a < length (arrays st))%nat -> page st = Some p -> more p = Some p' ->
  (length (contents a st) < target)%nat ->
  (length (contents a st ++ evaluate (document p)) < target)%nat ->
  exists st' : State,
    accumulate target (S fuel) a st = accumulate target fuel a st' /\
    page st' = Some p' /\
    contents a st' = contents a st ++ evaluate (document p) /\
    length (arrays st') = length (arrays st) /\
    clicks (calls st') = clicks (calls st) ++ [arrays st'].
Proof.
  intros Ha Hp Hm Hn Hn'. rewrite accumulate_step by exact Ha. cbn zeta.
  rewrite Hp. cbn [from_option mbind option_bind]. rewrite Hm.
  apply Nat.ltb_lt in Hn, Hn'. rewrite Hn, Hn'.
  eexists. split; [reflexivity|]. cbn [page arrays calls].
  split; [reflexivity|]. split; [apply contents_insert, Ha|].
  split; [apply length_insert|].
  unfold clicks. rewrite <- app_assoc, omap_app. reflexivity.
Qed.

Lemma accumulate_turn_enough (target fuel : nat) (a : ref) (st : State) (p : Page) :
  (a < length (arrays st))%nat -> page st = Some p ->
  (length (contents a st) < target)%nat ->
  (target <= length (contents a st ++ evaluate (document p)))%nat ->
  exists st' : State,
    accumulate target (S fuel) a st = accumulate target fuel a st' /\
    page st' = Some p /\
    contents a st' = contents a st ++ evaluate (document p) /\
    length (arrays st') = length (arrays st) /\
    clicks (calls st') = clicks (calls st).
Proof.
  intros Ha Hp Hn Hn'. rewrite accumulate_step by exact Ha. cbn zeta.
  rewrite Hp. cbn [from_option].
  apply Nat.ltb_lt in Hn. apply Nat.ltb_ge in Hn'. rewrite Hn, Hn'.
  eexists. split; [reflexivity|]. cbn [page arrays calls].
  split; [reflexivity|]. split; [apply contents_insert, Ha|].
  split; [apply length_insert|].
  unfold clicks. rewrite omap_app. cbn. apply app_nil_r.
Qed.

Lemma accumulate_turn_timeout (target fuel : nat) (a : ref) (st : State) :
  (a < length (arrays st))%nat -> page st ≫= more = None ->
  (length (contents a st) < target)%nat ->
  (length (contents a st ++ from_option (fun p => evaluate (document p)) [] (page st))
   < target)%nat ->
  (accumulate target (S fuel) a st).1 = Throw TimeoutError.
Proof.
  intros Ha Hm Hn Hn'. rewrite accumulate_step by exact Ha. cbn zeta.
  apply Nat.ltb_lt in Hn, Hn'. rewrite Hn, Hn', Hm. reflexivity.
Qed.

End SiteFacts.

(** ** Lines of output *)

Lemma existsb_forallb_false {A : Type} (P Q : A -> bool) (l : list A) :
  (forall x : A, Q x = true -> P x = false) ->
  forallb Q l = true -> existsb P l = false.
Proof.
  intros HPQ. induction l as [|x l IH]; simpl; [reflexivity|].
  intros H. apply andb_true_iff in H as [Hx Hl].
  rewrite (HPQ _ Hx), (IH Hl). reflexivity.
Qed.

Lemma infos_no_failure (l : list Output) :
  forallb is_info l = true -> has_failure l = false.
Proof. apply existsb_forallb_false. intros [] H; try discriminate; reflexivity. Qed.

Lemma infos_no_marker (l : list Output) :
  forallb is_info l = true -> has_marker l = false.
Proof. apply existsb_forallb_false. intros [] H; try discriminate; reflexivity. Qed.

Lemma imap_forallb {A B : Type} (P : B -> bool) (f : nat -> A -> B) (l : list A) :
  (forall (i : nat) (x : A), P (f i x) = true) -> forallb P (imap f l) = true.
Proof.
  revert f. induction l as [|x l IH]; intros f Hf; simpl; [reflexivity|].
  rewrite Hf. simpl. apply IH. intros i y. apply Hf.
Qed.

Lemma listing_is_listing (l : list Item) : forallb is_listing (listing l) = true.
Proof. apply imap_forallb. reflexivity. Qed.

Lemma listing_no_failure (l : list Item) : has_failure (listing l) = false.
Proof.
  eapply existsb_forallb_false; [|apply listing_is_listing].
  intros [] H; try discriminate; reflexivity.
Qed.

Lemma listing_no_marker (l : list Item) : has_marker (listing l) = false.
Proof.
  eapply existsb_forallb_false; [|apply listing_is_listing].
  intros [] H; try discriminate; reflexivity.
Qed.


Lemma report_no_failure (l : list Item) : has_failure (report l) = false.
Proof.
  unfold report, has_failure. rewrite !existsb_app.
  fold (has_failure (listing l)). rewrite listing_no_failure. reflexivity.
Qed.

Lemma has_failure_app (l k : list Output) :
  has_failure (l ++ k) = has_failure l || has_failure k.
Proof. apply existsb_app. Qed.

Lemma has_marker_app (l k : list Output) :
  has_marker (l ++ k) = has_marker l || has_marker k.
Proof. apply existsb_app. Qed.

(** ** The sort leaves nothing for the scan to find *)

Lemma scan_from_index (i j : nat) (p : Item) (l : list Item) :
  scan_from i p l = None -> scan_from j p l = None.
Proof.
  revert i j p. induction l as [|y l IH]; intros i j p H; [reflexivity|].
  simpl in *. destruct (gt (timestamp y) (timestamp p)); [discriminate|].
  eapply IH, H.
Qed.

Lemma gt_asym (a b : number) : gt a b = true -> gt b a = false.
Proof.
  destruct a, b; simpl; try reflexivity; try discriminate.
  rewrite Z.ltb_lt, Z.ltb_ge. lia.
Qed.

Lemma scan_from_insert (i : nat) (p x : Item) (l : list Item) :
  gt (timestamp x) (timestamp p) = false ->
  scan_from i p l = None ->
  scan_from i p (insert_by by_timestamp_desc x l) = None.
Proof.
  revert i p. induction l as [|y l IH]; intros i p Hxp Hl.
  - simpl. rewrite Hxp. reflexivity.
  - rewrite insert_desc_unfold. simpl in Hl.
    destruct (gt (timestamp y) (timestamp p)) eqn:Hyp; [discriminate|].
    destruct (gt (timestamp y) (timestamp x)) eqn:Hyx; simpl.
    + rewrite Hyp. apply IH; [apply gt_asym, Hyx | exact Hl].
    + rewrite Hxp, Hyx. eapply scan_from_index, Hl.
Qed.

(** Whatever the timestamps, NaN included, the scan finds no violation in
    what the stable sort returns. *)
Lemma sort_scan_passes (l : list Item) :
  first_violation (sort_by by_timestamp_desc l) = None.
Proof.
  induction l as [|x l IH]; [reflexivity|]. simpl.
  destruct (sort_by by_timestamp_desc l) as [|y s] eqn:Hs; [reflexivity|].
  rewrite insert_desc_unfold.
  destruct (gt (timestamp y) (timestamp x)) eqn:Hyx; simpl.
  - apply scan_from_insert; [apply gt_asym, Hyx | exact IH].
  - rewrite Hyx. eapply scan_from_index, IH.
Qed.

Lemma verify_descending (l : list Item) : descending l = true -> verify l = Normal tt.
Proof. intros H. unfold verify. rewrite first_violation_descending by exact H. reflexivity. Qed.

Lemma finite_not_nan (it : Item) : isFinite (timestamp it) = true -> not_nan it.
Proof. unfold not_nan. destruct (timestamp it); simpl; congruence. Qed.

Lemma top_sorted_descending (n : nat) (articles : list Item) :
  Forall not_nan (take n articles) -> descending (top_sorted n articles) = true.
Proof. apply sort_descending. Qed.

Lemma top_sorted_length (n : nat) (articles : list Item) :
  (n <= length articles)%nat -> length (top_sorted n articles) = n.
Proof.
  intros H. unfold top_sorted. rewrite sort_by_length, length_take. lia.
Qed.

(** * The claims *)

Import Scenarios.

(** C1 (P3, sort correctness).  For every sample of N = 100 Items whose
    timestamps are finite, the array [ordered] that line 80 produces satisfies
    [ordered[i].timestamp <= ordered[i-1].timestamp] at every position [i]
    from 1 to N - 1, and the scan of lines 97-104 finds no violation and
    completes normally. *)
Theorem C1_sorted_sample_is_descending (sample : list Item) :
  length sample = 100%nat ->
  Forall (fun it => isFinite (timestamp it) = true) sample ->
  let ordered := top_sorted 100 sample in
  length ordered = 100%nat /\
  (forall i : nat, (1 <= i < 100)%nat ->
     exists cur prev : Item,
       ordered !! i = Some cur /\ ordered !! (i - 1)%nat = Some prev /\
       le (timestamp cur) (timestamp prev) = true) /\
  first_violation ordered = None /\
  verify ordered = Normal tt.
Proof.
  intros Hlen Hfin ordered.
  assert (Hd : descending ordered = true).
  { apply top_sorted_descending. apply Forall_take.
    eapply Forall_impl; [exact Hfin|]. apply finite_not_nan. }
  assert (Hl : length ordered = 100%nat) by (apply top_sorted_length; lia).
  split; [exact Hl|]. split; [|split].
  - intros i Hi.
    destruct (lookup_lt_is_Some_2 ordered i) as [cur Hcur]; [lia|].
    destruct (lookup_lt_is_Some_2 ordered (i - 1)) as [prev Hprev]; [lia|].
    exists cur, prev. split; [exact Hcur|]. split; [exact Hprev|].
    apply (proj1 (descending_lookup ordered) Hd (i - 1)%nat); [exact Hprev|].
    replace (S (i - 1)) with i by lia. exact Hcur.
  - apply first_violation_descending, Hd.
  - apply verify_descending, Hd.
Qed.

Lemma C1_witness :
  first_violation (top_sorted 100 rising_sample) = None /\
  verify (top_sorted 100 rising_sample) = Normal tt.
Proof.
  assert (Hlen : length rising_sample = 100%nat) by reflexivity.
  assert (Hfin : Forall (fun it => isFinite (timestamp it) = true) rising_sample).
  { apply Forall_forall. intros it Hin.
    apply list_elem_of_fmap in Hin as (n & -> & _). reflexivity. }
  destruct (C1_sorted_sample_is_descending rising_sample Hlen Hfin) as (_ & _ & H1 & H2).
  split; assumption.
Defined.

(** Scenario A: the timestamps 100, 300, 200 come out as 300, 200, 100. *)
Example scenario_A :
  top_sorted 3 [item "a" (Fin 100); item "b" (Fin 300); item "c" (Fin 200)] =
  [item "b" (Fin 300); item "c" (Fin 200); item "a" (Fin 100)] /\
  verify (top_sorted 3 [item "a" (Fin 100); item "b" (Fin 300); item "c" (Fin 200)])
  = Normal tt.
Proof. split; reflexivity. Qed.

(** ** C2 *)





(** In the insertion order of the embedding (an engine may arrange an array
    that holds a NaN otherwise), a sample with a NaN in it comes out visibly
    unsorted and still passes. *)
Example nan_hides_disorder :
  let sample := [item "a" (Fin 100); item "b" (Fin 300); item "n" NaN; item "c" (Fin 200)] in
  top_sorted 100 sample =
  [item "b" (Fin 300); item "a" (Fin 100); item "n" NaN; item "c" (Fin 200)] /\
  verify (top_sorted 100 sample) = Normal tt.
Proof. split; reflexivity. Qed.

(** ** C3 *)

(** C3, counterexample (Scenario D).  A row whose title element has the
    empty text and whose age link carries digits gives an Item with the
    title "", although the rule of the specification does not admit it. *)
Lemma C3_empty_title_is_admitted :
  evaluate empty_title_document = [item "" (Fin 500000)] /\
  spec_admits (raw_title empty_title_row)
              (raw_timestamp empty_title_document empty_title_row) = false /\
  ~ (forall (doc : Document) (row : Row),
       is_Some (admitted doc row) <->
       spec_admits (raw_title row) (raw_timestamp doc row) = true).
Proof.
  split; [reflexivity|]. split; [reflexivity|].
  intros H. specialize (H empty_title_document empty_title_row).
  destruct H as [H _]. discriminate H. eexists. reflexivity.
Qed.

(** The guard of line 54 is [isNaN], not [isFinite]: a run of digits beyond
    the doubles gives the timestamp [+Infinity], and the Item is admitted. *)
Example infinite_timestamp_is_admitted :
  evaluate {| rows := [numbered_row 1]; age_href := fun _ => Some (nines 310) |}
  = [item "Story 1" PInf].
Proof. vm_compute. reflexivity. Qed.

Lemma raw_timestamp_isNaN (doc : Document) (row : Row) :
  isNaN (raw_timestamp doc row) = false <->
  exists href : string,
    age_href doc (score_selector (row_id row)) = Some href /\ has_digit href = true.
Proof.
  unfold raw_timestamp.
  destruct (age_href doc (score_selector (row_id row))) as [href|]; simpl.
  - rewrite timestamp_isNaN, negb_false_iff. split; [eauto|].
    intros (h & [= <-] & H). exact H.
  - split; [discriminate|]. intros (h & H & _). discriminate.
Qed.

(** C3, amended (P1).  For every row an extraction step visits, an Item is
    appended if and only if the row has a title element and the timestamp
    read through its age link is not NaN; the title text is not tested (an
    empty title is admitted).  The Item carries the trimmed title text and
    that timestamp, which is not negative (and may be [+Infinity]); the Items
    are appended in document order. *)
Theorem C3_admission (doc : Document) (row : Row) :
  (is_Some (admitted doc row) <->
   is_Some (titleEl row) /\ isNaN (raw_timestamp doc row) = false) /\
  (forall it : Item, admitted doc row = Some it ->
     Some (title it) = raw_title row /\ timestamp it = raw_timestamp doc row /\
     le (Fin 0) (timestamp it) = true) /\
  evaluate doc = omap (admitted doc) (rows doc).
Proof.
  split; [|split].
  - rewrite raw_timestamp_isNaN. split.
    + intros [it H]. apply admitted_Some in H as (text & href & Ht & Ha & Hd & _).
      split; eauto.
    + intros [[text Ht] (href & Ha & Hd)].
      eexists. apply admitted_Some. exists text, href. eauto.
  - intros it H. apply admitted_Some in H as (text & href & Ht & Ha & Hd & ->).
    unfold raw_title, raw_timestamp. rewrite Ht, Ha. cbn [title timestamp from_option].
    split; [reflexivity|]. split; [reflexivity|].
    rewrite timestamp_not_negative, timestamp_isNaN, Hd. reflexivity.
  - apply evaluate_omap.
Qed.

(** ** C4 *)

Lemma count_failures_app (l k : list Output) :
  count_failures (l ++ k) = (count_failures l + count_failures k)%nat.
Proof. unfold count_failures. rewrite List.filter_app, length_app. reflexivity. Qed.

Lemma count_failures_none (l : list Output) :
  has_failure l = false -> count_failures l = 0%nat.
Proof.
  unfold has_failure, count_failures. induction l as [|x l IH]; simpl; [reflexivity|].
  intros H. apply orb_false_iff in H as [Hx Hl]. rewrite Hx. apply IH, Hl.
Qed.

Lemma infos_no_listing (l : list Output) :
  forallb is_info l = true -> existsb is_listing l = false.
Proof. apply existsb_forallb_false. intros [] H; try discriminate; reflexivity. Qed.



(** In a whole run the scan is never given such an array: the timestamps the
    extraction admits are not NaN, the sort returns them descending, and the
    scan finds nothing.  So no run has both the success marker and a failure
    line; a run has at most one failure line (the timeout of a click or the
    failed navigation); when it has the marker, the marker follows the
    listing of the 100 sorted Items; and a run that ends has either the
    marker, or exactly one failure line and no line of a listing. *)
Corollary run_output_is_exclusive (Page : Type) (document : Page -> Document)
    (more : Page -> option Page) (newest : option Page) (fuel : nat) :
  let o := out (run Page document more newest fuel).2 in
  has_marker o && has_failure o = false /\
  (count_failures o <= 1)%nat /\
  (has_marker o = true ->
   exists (before : list Output) (ordered : list Item),
     length ordered = TARGET /\ descending ordered = true /\
     o = before ++ listing ordered
         ++ [ Info "----------------------------------------"; success_marker;
              Info "Closing browser..."; Success "Bot execution completed." ]) /\
  ((run Page document more newest fuel).1 = Normal tt ->
   has_marker o = true \/ (count_failures o = 1%nat /\ existsb is_listing o = false)).
Proof.
  intros o. unfold o. clear o. rewrite run_eq.
  destruct newest as [p|].
  2:{ split; [reflexivity|]. split; [cbv; lia|].
      split; [intros H; discriminate H|]. intros _. right. split; reflexivity. }
  pose proof (loop_start_grows Page document more fuel p) as H. cbn zeta in H.
  destruct H as (items & infos & Hc & Hnn & Hout & Hinfos & _ & Hres).
  destruct (accumulate Page document more TARGET fuel 0 (loop_start p)) as [[u|e|] st];
    cbn [fst snd] in *.
  - cbn zeta. rewrite Hc.
    assert (Hd : descending (top_sorted TARGET items) = true)
      by (apply top_sorted_descending, Forall_take, Hnn).
    rewrite (verify_descending _ Hd).
    unfold finished, reported; cbn [fst snd out]. rewrite Hout.
    assert (Hm : has_marker ((out (started (Some p)) ++ infos)
                             ++ report (top_sorted TARGET items)) = true).
    { rewrite has_marker_app. unfold report. rewrite !has_marker_app.
      cbn. rewrite !orb_true_r. reflexivity. }
    split; [|split; [|split]].
    + rewrite !has_failure_app, report_no_failure, (infos_no_failure _ Hinfos).
      cbn. apply andb_false_r.
    + rewrite !count_failures_app.
      rewrite (count_failures_none (report _)) by apply report_no_failure.
      rewrite (count_failures_none infos) by apply infos_no_failure, Hinfos.
      cbv; lia.
    + intros _.
      exists ((out (started (Some p)) ++ infos)
              ++ [ Info "Sorting articles from newest to oldest...";
                   Info (String "010"%char
                           "Final sorted list of 100 articles (newest to oldest):");
                   Info "----------------------------------------" ]),
             (top_sorted TARGET items).
      split; [apply top_sorted_length, Hres|]. split; [exact Hd|].
      unfold report. rewrite <- !app_assoc. reflexivity.
    + intros _. left. rewrite has_marker_app, Hm. reflexivity.
  - subst e. unfold finished, caught; cbn [fst snd out]. rewrite Hout.
    assert (Hf : count_failures
                   (((out (started (Some p)) ++ infos) ++ [Failure TimeoutError])
                    ++ [Info "Closing browser..."; Success "Bot execution completed."])
                 = 1%nat).
    { rewrite !count_failures_app.
      rewrite (count_failures_none infos) by apply infos_no_failure, Hinfos.
      reflexivity. }
    split; [|split; [|split]].
    + rewrite !has_marker_app, (infos_no_marker _ Hinfos). reflexivity.
    + rewrite Hf. lia.
    + rewrite !has_marker_app, (infos_no_marker _ Hinfos). intros H. discriminate H.
    + intros _. right. split; [exact Hf|].
      rewrite !existsb_app, (infos_no_listing _ Hinfos). reflexivity.
  - rewrite Hout.
    split; [|split; [|split]].
    + rewrite !has_marker_app, (infos_no_marker _ Hinfos). reflexivity.
    + rewrite !count_failures_app.
      rewrite (count_failures_none infos) by apply infos_no_failure, Hinfos.
      cbv; lia.
    + rewrite !has_marker_app, (infos_no_marker _ Hinfos). intros H. discriminate H.
    + intros H. discriminate H.
Qed.

(** A run on a site of 40 stories a page ends with the marker and without a
    failure line; on a site that has two pages of 40 and no third, the click
    times out, and the run ends with the failure line and without the marker
    (the source being exhausted before the target is reached). *)
Example run_succeeds :
  let r := run nat (paged 40) next_page (Some 0%nat) 4 in
  r.1 = Normal tt /\ has_marker (out r.2) = true /\ has_failure (out r.2) = false /\
  length (List.filter is_listing (out r.2)) = 100%nat.
Proof. vm_compute. auto. Qed.

Example run_exhausts_the_source :
  let r := run nat (paged 40) (fun p => if (p <? 1)%nat then Some (S p) else None)
               (Some 0%nat) 4 in
  r.1 = Normal tt /\ has_marker (out r.2) = false /\
  List.filter is_failure (out r.2) = [Failure TimeoutError] /\
  length (contents 0 r.2) = 80%nat.
Proof. vm_compute. auto. Qed.

(** ** C5 *)

(** C5, counterexample.  On an array whose second Item is newer than its
    first, the scan does not return a value that carries the finding: it
    completes by throwing an [Error], which holds a message only. *)
Lemma C5_violation_is_thrown :
  first_violation unsorted_pair = Some (1%nat, item "b" (Fin 300), item "a" (Fin 100)) /\
  verify unsorted_pair
  = Throw (Error "Sorting error at position 1: Article 'b' is newer than 'a'") /\
  (report_and_verify nat 0
     {| page := None; arrays := [unsorted_pair]; out := []; calls := [] |}).1
  = Throw (Error "Sorting error at position 1: Article 'b' is newer than 'a'").
Proof. repeat split; reflexivity. Qed.

(** C5, amended.  When the scan finds [top100[i].timestamp >
    top100[i-1].timestamp], lines 82-104 complete by throwing an [Error] whose
    message names the position and the two titles; the [catch] of the same
    function takes it, prints the one failure line with that message, and the
    function completes normally after the [finally] block closed the
    browser. *)
Theorem C5_violation_is_thrown_and_caught (Page : Type) (top100 : ref)
    (st : State Page) (i : nat) (cur prev : Item) :
  first_violation (contents top100 st) = Some (i, cur, prev) ->
  (report_and_verify Page top100 st).1 = Throw (Error (sorting_error i cur prev)) /\
  guarded Page (report_and_verify Page top100) st =
  (Normal tt,
   {| page := page st; arrays := arrays st;
      out := out st ++ report (contents top100 st)
             ++ [ Failure (Error (sorting_error i cur prev));
                  Info "Closing browser..."; Success "Bot execution completed." ];
      calls := calls st ++ [Close] |}).
Proof.
  intros H. rewrite guarded_spec, report_and_verify_spec. unfold verify. rewrite H.
  split; [reflexivity|].
  unfold finished, caught. cbn [page arrays out calls].
  rewrite <- !app_assoc. reflexivity.
Qed.

Lemma C5_witness :
  (report_and_verify nat 0
     {| page := None; arrays := [unsorted_pair]; out := []; calls := [] |}).1
  = Throw (Error (sorting_error 1 (item "b" (Fin 300)) (item "a" (Fin 100)))).
Proof.
  refine (proj1 (C5_violation_is_thrown_and_caught nat 0
           {| page := None; arrays := [unsorted_pair]; out := []; calls := [] |}
           1 (item "b" (Fin 300)) (item "a" (Fin 100)) _)).
  reflexivity.
Defined.

(** ** C6 *)

(** C6 (P2).  In every execution of the loop, for any target, each click on
    [.morelink] is made in a store where the array [articles] is shorter than
    the target. *)
Theorem C6_load_more_is_guarded (Page : Type) (document : Page -> Document)
    (more : Page -> option Page) (target fuel : nat) (articles : ref)
    (st : State Page) :
  (articles < length (arrays st))%nat ->
  exists cs : list Call,
    calls (accumulate Page document more target fuel articles st).2 = calls st ++ cs /\
    clicks_guarded target articles cs = true /\
    forall h : Store, h ∈ clicks cs ->
      (length (default [] (h !! articles)) < target)%nat.
Proof.
  intros Ha.
  destruct (accumulate_grows Page document more target fuel articles st Ha)
    as [(extra & infos & cs & _ & _ & _ & _ & Hcalls & Hguard) _].
  exists cs. split; [exact Hcalls|]. split; [exact Hguard|].
  intros h Hin. unfold clicks_guarded in Hguard.
  rewrite forallb_forall in Hguard.
  apply Nat.ltb_lt, Hguard, list_elem_of_In, Hin.
Qed.

Lemma C6_witness :
  exists cs : list Call,
    calls (accumulate nat (paged 40) next_page 100 10 0 (loop_start 0%nat)).2
    = calls (loop_start 0%nat) ++ cs /\
    clicks_guarded 100 0 cs = true /\
    forall h : Store, h ∈ clicks cs -> (length (default [] (h !! 0%nat)) < 100)%nat.
Proof.
  apply (C6_load_more_is_guarded nat (paged 40) next_page 100 10 0 (loop_start 0%nat)).
  simpl. lia.
Defined.

(** In a whole run, the array of line 36 is the first of the store. *)
Corollary run_load_more_is_guarded (Page : Type) (document : Page -> Document)
    (more : Page -> option Page) (newest : option Page) (fuel : nat) :
  clicks_guarded TARGET 0 (calls (run Page document more newest fuel).2) = true.
Proof.
  rewrite run_eq. destruct newest as [p|]; [|reflexivity].
  pose proof (loop_start_grows Page document more fuel p) as H. cbn zeta in H.
  destruct H as (items & infos & _ & _ & _ & _ & Hguard & _).
  destruct (accumulate Page document more TARGET fuel 0 (loop_start p)) as [[u|e|] st];
    cbn [fst snd] in *.
  - cbn zeta. destruct (verify _); unfold finished, caught, reported; cbn [fst snd calls];
      rewrite ?clicks_guarded_app, Hguard; reflexivity.
  - unfold finished, caught; cbn [fst snd calls].
    rewrite clicks_guarded_app, Hguard. reflexivity.
  - exact Hguard.
Qed.

(** ** Batches *)

(** Batches of 40 reach the 100 of the program after 2 clicks, with 120
    Items. *)
Example batches_of_40 :
  let r := accumulate nat (paged 40) next_page TARGET 4 0 (loop_start 0%nat) in
  r.1 = Normal tt /\ length (contents 0 r.2) = 120%nat /\
  length (clicks (calls r.2)) = 2%nat.
Proof. vm_compute. auto. Qed.

(** ** C8 *)

Lemma contents_reported {Page : Type} (ordered : list Item) (st : State Page) :
  contents (length (arrays st)) (reported ordered st) = ordered.
Proof. apply contents_fresh. Qed.

(** C8 (P4, sample truncation).  What lines 80-104 do depends on the first
    N = 100 Items of the array [articles] only: on two stores whose arrays
    agree on their first 100 Items they complete alike, print the same lines
    and leave the same sorted array.  The sort works on a fresh array, the
    copy [slice] made: the arrays that were there, [articles] among them, are
    unchanged, and the browser is not called. *)
Theorem C8_validator_reads_first_N (Page : Type) (st1 st2 : State Page) (a1 a2 : ref) :
  take 100 (contents a1 st1) = take 100 (contents a2 st2) ->
  let r1 := validate Page 100 a1 st1 in
  let r2 := validate Page 100 a2 st2 in
  r1.1 = r2.1 /\
  (exists lines : list Output,
     out r1.2 = out st1 ++ lines /\ out r2.2 = out st2 ++ lines) /\
  contents (length (arrays st1)) r1.2 = contents (length (arrays st2)) r2.2 /\
  arrays r1.2 = arrays st1 ++ [top_sorted 100 (contents a1 st1)] /\
  (forall b : ref,
     (b < length (arrays st1))%nat -> arrays r1.2 !! b = arrays st1 !! b) /\
  contents a1 r1.2 = contents a1 st1 /\
  calls r1.2 = calls st1 /\ page r1.2 = page st1.
Proof.
  intros Htake r1 r2. unfold r1, r2. clear r1 r2.
  assert (Hs : top_sorted 100 (contents a1 st1) = top_sorted 100 (contents a2 st2))
    by (unfold top_sorted; rewrite Htake; reflexivity).
  rewrite !validate_spec. cbn [fst snd]. rewrite <- Hs.
  rewrite !contents_reported. cbn [reported page arrays out calls].
  split; [reflexivity|]. split; [eauto|]. split; [reflexivity|].
  split; [reflexivity|].
  split; [intros b Hb; apply lookup_app_l, Hb|].
  split; [|split; reflexivity].
  destruct (decide (a1 < length (arrays st1))%nat) as [Hlt|Hge].
  - unfold contents, reported. cbn [arrays].
    rewrite lookup_app_l by exact Hlt. reflexivity.
  - assert (Hnil : contents a1 st1 = []).
    { unfold contents. rewrite lookup_ge_None_2 by lia. reflexivity. }
    rewrite Hnil.
    destruct (decide (a1 = length (arrays st1))) as [->|Hne].
    + rewrite contents_reported. reflexivity.
    + unfold contents, reported. cbn [arrays].
      rewrite lookup_ge_None_2; [reflexivity|]. rewrite length_app. simpl. lia.
Qed.

Lemma C8_witness :
  (validate nat 100 0 (idle long_store_1)).1 = (validate nat 100 1 (idle long_store_2)).1 /\
  contents 0 (validate nat 100 0 (idle long_store_1)).2 = contents 0 (idle long_store_1).
Proof.
  assert (H : take 100 (contents 0 (idle long_store_1))
              = take 100 (contents 1 (idle long_store_2))) by reflexivity.
  destruct (C8_validator_reads_first_N nat (idle long_store_1) (idle long_store_2) 0 1 H)
    as (H1 & _ & _ & _ & _ & H2 & _).
  split; assumption.
Defined.

(** ** C9 *)

Lemma descending_not_nan (l : list Item) :
  descending l = true -> (2 <= length l)%nat -> Forall not_nan l.
Proof.
  destruct l as [|x [|y l]]; simpl; try lia. intros H _.
  pose proof (descending_from_all x (y :: l) H) as Hall.
  assert (Hx : not_nan x).
  { apply Forall_cons in Hall as [Hyx _]. apply (le_isNaN _ _ Hyx). }
  constructor; [exact Hx|].
  eapply Forall_impl; [exact Hall|]. intros z Hz. apply (le_isNaN _ _ Hz).
Qed.

(** A descending arrangement of a sample without ties is the one the sort
    returns. *)
Lemma descending_is_sorted (sample ordered : list Item) :
  NoDup (map timestamp sample) -> ordered ≡ₚ sample -> descending ordered = true ->
  ordered = sort_by by_timestamp_desc sample.
Proof.
  intros Hnd Hp Hd.
  destruct (decide (2 <= length ordered)%nat) as [Hlen|Hlen].
  - apply descending_unique; [|rewrite Hp, sort_by_perm; reflexivity|exact Hd|].
    + rewrite (Permutation_map timestamp Hp). exact Hnd.
    + apply sort_descending. rewrite <- Hp. apply descending_not_nan; assumption.
  - destruct ordered as [|x [|y l]]; [| |simpl in Hlen; lia].
    + apply Permutation_nil in Hp. subst sample. reflexivity.
    + apply Permutation_singleton_l in Hp. subst sample. reflexivity.
Qed.

(** C9 (P5, determinism modulo ties).  Two runs of lines 80-104 on the same
    sample, whatever else the two states hold, leave the same [ordered] array
    and complete alike; and when the timestamps of the sample are pairwise
    distinct, [ordered] is the only descending arrangement of the sample, so
    nothing is left to the engine's sort. *)
Theorem C9_validator_is_deterministic (Page : Type) (st1 st2 : State Page)
    (a1 a2 : ref) (sample : list Item) :
  contents a1 st1 = sample -> contents a2 st2 = sample ->
  NoDup (map timestamp (take 100 sample)) ->
  let r1 := validate Page 100 a1 st1 in
  let r2 := validate Page 100 a2 st2 in
  let ordered1 := contents (length (arrays st1)) r1.2 in
  let ordered2 := contents (length (arrays st2)) r2.2 in
  ordered1 = ordered2 /\ r1.1 = r2.1 /\
  ordered1 = top_sorted 100 sample /\
  forall ordered : list Item,
    ordered ≡ₚ take 100 sample -> descending ordered = true -> ordered = ordered1.
Proof.
  intros H1 H2 Hnd r1 r2 ordered1 ordered2.
  unfold ordered1, ordered2, r1, r2. clear ordered1 ordered2 r1 r2.
  rewrite !validate_spec. cbn [fst snd]. rewrite !contents_reported, H1, H2.
  repeat split.
  intros ordered Hp Hd. apply descending_is_sorted; assumption.
Qed.

Lemma C9_witness :
  contents 1 (validate nat 100 0 (idle long_store_1)).2 = top_sorted 100 (rising_sample ++ [item "late" (Fin 5)]).
Proof.
  refine (proj1 (proj2 (proj2
    (C9_validator_is_deterministic nat (idle long_store_1) (idle long_store_1) 0 0
       (rising_sample ++ [item "late" (Fin 5)]) eq_refl eq_refl _)))).
  change (take 100 (rising_sample ++ [item "late" (Fin 5)])) with rising_sample.
  apply (bool_decide_unpack (NoDup (map timestamp rising_sample))).
  vm_compute. exact I.
Defined.

(** ** C10 *)

Lemma admitted_same (doc1 doc2 : Document) (r1 r2 : Row) :
  titleEl r1 = titleEl r2 ->
  age_href doc1 (score_selector (row_id r1)) = age_href doc2 (score_selector (row_id r2)) ->
  admitted doc1 r1 = admitted doc2 r2.
Proof. intros Ht Ha. unfold admitted, visit. rewrite Ht, Ha. reflexivity. Qed.

Lemma omap_admitted_same (doc1 doc2 : Document) (l1 l2 : list Row) :
  Forall2 (fun r1 r2 =>
             titleEl r1 = titleEl r2 /\
             age_href doc1 (score_selector (row_id r1)) =
             age_href doc2 (score_selector (row_id r2))) l1 l2 ->
  omap (admitted doc1) l1 = omap (admitted doc2) l2.
Proof.
  induction 1 as [|r1 r2 l1 l2 [Ht Ha] _ IH]; [reflexivity|].
  cbn [omap list_omap]. fold (omap (admitted doc1) l1). fold (omap (admitted doc2) l2).
  rewrite (admitted_same doc1 doc2 r1 r2 Ht Ha), IH. reflexivity.
Qed.

Lemma evaluate_same (doc1 doc2 : Document) :
  same_listing doc1 doc2 -> evaluate doc1 = evaluate doc2.
Proof. intros H. rewrite !evaluate_omap. apply omap_admitted_same, H. Qed.

Lemma accumulate_ext (Page : Type) (doc1 doc2 : Page -> Document)
    (more : Page -> option Page) (target fuel : nat) (a : ref) (st : State Page) :
  (forall p : Page, evaluate (doc1 p) = evaluate (doc2 p)) ->
  (a < length (arrays st))%nat ->
  accumulate Page doc1 more target fuel a st = accumulate Page doc2 more target fuel a st.
Proof.
  intros Hev. revert st. induction fuel as [|fuel IH]; intros st Ha; [reflexivity|].
  rewrite !accumulate_step by exact Ha. cbn zeta.
  assert (Hnew : from_option (fun p => evaluate (doc1 p)) [] (page st)
                 = from_option (fun p => evaluate (doc2 p)) [] (page st))
    by (destruct (page st); [apply Hev | reflexivity]).
  rewrite Hnew.
  destruct (_ <? target)%nat; [|reflexivity].
  destruct (_ <? target)%nat.
  - destruct (page st ≫= more); [|reflexivity].
    apply IH. cbn [arrays]. rewrite length_insert. exact Ha.
  - apply IH. cbn [arrays]. rewrite length_insert. exact Ha.
Qed.

(** C10.  An Item is the pair of its [title] and its [timestamp], nothing
    else; the [id] of a row only selects the age link.  Two sites whose pages
    list the same titles and the same age links, under whatever ids, give the
    same Items at every extraction and the same run: the same output, the
    same arrays, the same calls. *)
Theorem C10_items_carry_no_id (Page : Type) (doc1 doc2 : Page -> Document)
    (more : Page -> option Page) (newest : option Page) (fuel : nat) :
  (forall p : Page, same_listing (doc1 p) (doc2 p)) ->
  (forall it : Item, it = {| title := title it; timestamp := timestamp it |}) /\
  (forall p : Page, evaluate (doc1 p) = evaluate (doc2 p)) /\
  run Page doc1 more newest fuel = run Page doc2 more newest fuel.
Proof.
  intros Hsame.
  assert (Hev : forall p : Page, evaluate (doc1 p) = evaluate (doc2 p))
    by (intros p; apply evaluate_same, Hsame).
  split; [intros []; reflexivity|]. split; [exact Hev|].
  rewrite !run_eq. destruct newest as [p|]; [|reflexivity].
  rewrite (accumulate_ext Page doc1 doc2 more TARGET fuel 0 (loop_start p) Hev);
    [reflexivity|simpl; lia].
Qed.

Lemma same_listing_renamed (first count : nat) :
  same_listing (numbered_document first count) (renamed_document first count).
Proof.
  unfold same_listing. cbn [rows numbered_document renamed_document].
  apply Forall2_fmap, Forall_Forall2_diag, Forall_forall.
  intros n _. split; [reflexivity|].
  cbn [age_href numbered_row renamed_row row_id score_selector from_option id].
  reflexivity.
Qed.

Lemma C10_witness :
  run nat (paged 40) next_page (Some 0%nat) 5
  = run nat (paged_renamed 40) next_page (Some 0%nat) 5.
Proof.
  refine (proj2 (proj2 (C10_items_carry_no_id nat (paged 40) (paged_renamed 40)
                          next_page (Some 0%nat) 5 _))).
  intros p. apply same_listing_renamed.
Defined.

(** * Properties beyond the claims *)

Import Cases.

(** ** The comparator and the timestamps (lines 53 and 80) *)

Lemma negative_sign (v : number) : negative v = true <-> sign v = Some (-1).
Proof.
  unfold negative. destruct v as [z| | |]; simpl.
  - rewrite Z.ltb_lt. split; intros H.
    + f_equal. lia.
    + inversion H. lia.
  - split; discriminate.
  - tauto.
  - split; discriminate.
Qed.

Lemma negative_sub (a b : number) : negative (sub b a) = gt a b.
Proof.
  apply eq_true_iff_eq. rewrite negative_sign.
  destruct a as [x| | |], b as [y| | |]; simpl;
    try (split; (reflexivity || discriminate)).
  rewrite to_number_sign, Z.ltb_lt. split; intros H.
  - inversion H. lia.
  - f_equal. lia.
Qed.

(** X1.  The difference the comparator of line 80 returns has the sign of the
    comparison of the two timestamps, for all Numbers, the infinities and NaN
    included: it is positive exactly when [b] is newer than [a], negative
    exactly when [a] is newer than [b]; the rounding of the difference never
    turns two different timestamps into a tie, and swapping the arguments
    swaps the sign. *)
Theorem X1_comparator_sign (a b : Item) :
  positive (by_timestamp_desc a b) = gt (timestamp b) (timestamp a) /\
  negative (by_timestamp_desc a b) = gt (timestamp a) (timestamp b) /\
  positive (by_timestamp_desc a b) = negative (by_timestamp_desc b a) /\
  (isNaN (timestamp a) = false -> isNaN (timestamp b) = false ->
   positive (by_timestamp_desc a b) = false ->
   negative (by_timestamp_desc a b) = false -> timestamp a = timestamp b).
Proof.
  unfold by_timestamp_desc. rewrite !positive_sub, !negative_sub.
  repeat split. intros Ha Hb H1 H2.
  apply le_antisym; apply not_gt_le; assumption.
Qed.

Lemma round_pos_exact (n : Z) : 0 < n < 2 ^ 53 -> round_pos n = Fin n.
Proof.
  intros [H0 H1]. unfold round_pos.
  assert (Hl : Z.log2 n < 53) by (apply Z.log2_lt_pow2; lia).
  apply Z.ltb_lt in Hl. rewrite Hl. reflexivity.
Qed.

(** An integer below 2^53 in absolute value is a Number as it is. *)
Lemma to_number_exact (z : Z) : Z.abs z < 2 ^ 53 -> to_number z = Fin z.
Proof.
  intros H. destruct z as [|p|p]; simpl.
  - reflexivity.
  - apply round_pos_exact. lia.
  - rewrite round_pos_exact by lia. reflexivity.
Qed.

Lemma digits_prefix_all_digits (s : string) : all_digits (digits_prefix s) = true.
Proof.
  induction s as [|c s IH]; simpl; [reflexivity|].
  destruct (is_digit c) eqn:Hc; simpl; [|reflexivity]. rewrite Hc. exact IH.
Qed.

Lemma all_digits_prefix (s : string) : all_digits s = true -> digits_prefix s = s.
Proof.
  induction s as [|c s IH]; simpl; [reflexivity|].
  intros H. apply andb_true_iff in H as [Hc Hs]. rewrite Hc, IH by exact Hs. reflexivity.
Qed.

Lemma match_digits_all_digits (s ds : string) :
  match_digits s = Some ds -> all_digits ds = true /\ ds <> EmptyString.
Proof.
  induction s as [|c s IH]; simpl; [discriminate|].
  destruct (is_digit c) eqn:Hc; [|exact IH].
  intros [= <-]. simpl. rewrite Hc, digits_prefix_all_digits. split; [reflexivity|discriminate].
Qed.

Lemma decimal_nonneg (ds : string) : all_digits ds = true -> 0 <= decimal ds.
Proof.
  intros H. apply decimal_from_nonneg; [lia|]. apply all_digits_prefix, H.
Qed.

(** X2.  When the first run of digits of the [href] denotes [n] and
    [1000 * n] is below 2^53, the timestamp of line 53 is exactly [1000 * n]:
    neither [parseInt] nor the multiplication rounds. *)
Theorem X2_timestamp_is_exact (href ds : string) :
  match_digits href = Some ds -> 1000 * decimal ds < 2 ^ 53 ->
  mul (parseInt (match_digits href)) (Fin 1000) = Fin (1000 * decimal ds).
Proof.
  intros Hm Hlt. rewrite Hm.
  destruct (match_digits_all_digits _ _ Hm) as [Hd Hne].
  pose proof (decimal_nonneg ds Hd) as Hnn.
  unfold parseInt. rewrite (all_digits_prefix ds Hd).
  destruct ds as [|c r]; [contradiction|].
  rewrite to_number_exact by lia.
  unfold mul. rewrite to_number_exact by lia.
  f_equal. lia.
Qed.

Lemma X2_witness :
  mul (parseInt (match_digits "https://news.ycombinator.com/item?id=41234567"))
      (Fin 1000) = Fin (1000 * decimal "41234567").
Proof.
  apply (X2_timestamp_is_exact "https://news.ycombinator.com/item?id=41234567"
           "41234567"); [reflexivity|vm_compute; reflexivity].
Defined.

(** ** The match of [/\d+/] (line 53) *)

Lemma digits_prefix_app (ds post : string) :
  all_digits ds = true -> starts_with_digit post = false ->
  digits_prefix (ds +:+ post) = ds.
Proof.
  intros Hd Hp. induction ds as [|c ds IH]; simpl.
  - destruct post as [|c post]; [reflexivity|]. simpl in *. rewrite Hp. reflexivity.
  - simpl in Hd. apply andb_true_iff in Hd as [Hc Hd]. rewrite Hc, IH by exact Hd.
    reflexivity.
Qed.

Lemma digits_prefix_split (s : string) :
  exists post : string,
    s = digits_prefix s +:+ post /\ starts_with_digit post = false.
Proof.
  induction s as [|c s (post & Hs & Hp)]; simpl.
  - exists EmptyString. split; reflexivity.
  - destruct (is_digit c) eqn:Hc.
    + exists post. split; [|exact Hp].
      change (String c s = String c (digits_prefix s +:+ post)). f_equal. exact Hs.
    + exists (String c s). simpl. rewrite Hc. split; reflexivity.
Qed.

(** X3.  The match of [/\d+/] is the leftmost, longest run of decimal digits:
    [match] gives [ds] exactly when the [href] is [pre ++ ds ++ post] with no
    digit in [pre], [ds] a non-empty run of digits, and [post] not starting
    with a digit; it gives nothing exactly when the [href] has no digit. *)
Theorem X3_match_is_leftmost_longest (href ds : string) :
  (match_digits href = Some ds <->
   exists pre post : string,
     href = pre +:+ ds +:+ post /\ has_digit pre = false /\
     all_digits ds = true /\ ds <> EmptyString /\ starts_with_digit post = false) /\
  (match_digits href = None <-> has_digit href = false).
Proof.
  split.
  - split.
    + revert ds. induction href as [|c s IH]; intros ds H; simpl in H; [discriminate|].
      destruct (is_digit c) eqn:Hc.
      * injection H as <-. destruct (digits_prefix_split s) as (post & Hs & Hp).
        exists EmptyString, post.
        split; [change (String c s = String c (digits_prefix s +:+ post));
                f_equal; exact Hs|].
        split; [reflexivity|].
        split; [simpl; rewrite Hc; apply digits_prefix_all_digits|].
        split; [discriminate|exact Hp].
      * destruct (IH ds H) as (pre & post & -> & Hpre & Hd & Hne & Hp).
        exists (String c pre), post.
        split; [reflexivity|]. split; [simpl; rewrite Hc; exact Hpre|].
        split; [exact Hd|]. split; [exact Hne|exact Hp].
    + intros (pre & post & -> & Hpre & Hd & Hne & Hp).
      induction pre as [|c pre IH]; simpl.
      * destruct ds as [|c ds]; [contradiction|]. simpl in *.
        apply andb_true_iff in Hd as [Hc Hd]. rewrite Hc.
        rewrite digits_prefix_app by assumption. reflexivity.
      * simpl in Hpre. apply orb_false_iff in Hpre as [Hc Hpre].
        rewrite Hc. apply IH, Hpre.
  - pose proof (match_digits_has_digit href) as H.
    destruct (match_digits href) as [x|], (has_digit href); split; intros E;
      try reflexivity; try discriminate.
    + destruct H as [H _]. discriminate H. eauto.
    + destruct H as [_ [x H]]; [reflexivity|discriminate].
Qed.

(** ** [trim] and the titles (line 56) *)

Lemma append_assoc (a b c : string) : (a +:+ b) +:+ c = a +:+ (b +:+ c).
Proof.
  induction a as [|ch a IH]; [reflexivity|].
  change (String ch ((a +:+ b) +:+ c) = String ch (a +:+ (b +:+ c))).
  f_equal. exact IH.
Qed.

Lemma append_nil_r (a : string) : a +:+ EmptyString = a.
Proof.
  induction a as [|ch a IH]; [reflexivity|].
  change (String ch (a +:+ EmptyString) = String ch a). f_equal. exact IH.
Qed.

Lemma trim_start_strip (s : string) :
  trim_start s = match strip_space s with
                 | Some s' => trim_start s'
                 | None => s
                 end.
Proof.
  destruct s as [|c [|d [|e s]]]; simpl; try reflexivity.
  - destruct (is_space c); reflexivity.
  - destruct (is_space c); [reflexivity|]. destruct (is_space2 c d); reflexivity.
  - destruct (is_space c); [reflexivity|]. destruct (is_space2 c d); [reflexivity|].
    destruct (is_space3 c d e); reflexivity.
Qed.

(** a white space code point [w] at the start of [s] *)
Lemma strip_space_split (s s' : string) :
  strip_space s = Some s' ->
  exists w : string,
    s = w +:+ s' /\ (String.length s' < String.length s)%nat /\
    forall x : string, strip_space (w +:+ x) = Some x.
Proof.
  destruct s as [|c [|d [|e s]]]; simpl; try discriminate.
  - destruct (is_space c) eqn:Hc; [|discriminate]. intros [= <-].
    exists (String c EmptyString). split; [reflexivity|]. split; [simpl; lia|].
    intros x. simpl. rewrite Hc. reflexivity.
  - destruct (is_space c) eqn:Hc.
    + intros [= <-]. exists (String c EmptyString). split; [reflexivity|].
      split; [simpl; lia|]. intros x. simpl. rewrite Hc. reflexivity.
    + destruct (is_space2 c d) eqn:Hd; [|discriminate]. intros [= <-].
      exists (String c (String d EmptyString)). split; [reflexivity|].
      split; [simpl; lia|]. intros x. simpl. rewrite Hc, Hd. reflexivity.
  - destruct (is_space c) eqn:Hc.
    + intros [= <-]. exists (String c EmptyString). split; [reflexivity|].
      split; [simpl; lia|]. intros x. simpl. rewrite Hc. reflexivity.
    + destruct (is_space2 c d) eqn:Hd.
      * intros [= <-]. exists (String c (String d EmptyString)). split; [reflexivity|].
        split; [simpl; lia|]. intros x. simpl. rewrite Hc, Hd. reflexivity.
      * destruct (is_space3 c d e) eqn:He; [|discriminate]. intros [= <-].
        exists (String c (String d (String e EmptyString))). split; [reflexivity|].
        split; [simpl; lia|]. intros x. simpl. rewrite Hc, Hd, He. reflexivity.
Qed.

Lemma all_white_empty (s : string) : all_white s = true <-> trim_start s = EmptyString.
Proof.
  unfold all_white. destruct (trim_start s); split; try reflexivity; discriminate.
Qed.

Lemma trim_start_facts (n : nat) :
  forall s : string, (String.length s <= n)%nat ->
    starts_white (trim_start s) = false /\
    exists pre : string,
      s = pre +:+ trim_start s /\ all_white pre = true /\
      forall x : string, trim_start (pre +:+ x) = trim_start x.
Proof.
  induction n as [|n IH]; intros s Hlen.
  - destruct s; [|simpl in Hlen; lia].
    split; [reflexivity|]. exists EmptyString. repeat split.
  - rewrite trim_start_strip. unfold starts_white.
    destruct (strip_space s) as [s'|] eqn:Hs.
    + destruct (strip_space_split s s' Hs) as (w & -> & Hlt & Hw).
      destruct (IH s') as (H1 & pre & H2 & H3 & H4); [lia|].
      split; [exact H1|]. exists (w +:+ pre).
      split; [rewrite append_assoc, <- H2; reflexivity|].
      assert (Hx : forall x : string, trim_start ((w +:+ pre) +:+ x) = trim_start x).
      { intros x. rewrite append_assoc, trim_start_strip, Hw. apply H4. }
      split; [|exact Hx].
      apply all_white_empty. specialize (Hx EmptyString).
      rewrite append_nil_r in Hx. exact Hx.
    + rewrite Hs. split; [reflexivity|]. exists EmptyString. repeat split.
Qed.

Lemma trim_start_starts (s : string) : starts_white (trim_start s) = false.
Proof. apply (trim_start_facts (String.length s) s). lia. Qed.

Lemma trim_start_split (s : string) :
  exists pre : string, s = pre +:+ trim_start s /\ all_white pre = true.
Proof.
  destruct (trim_start_facts (String.length s) s) as (_ & pre & H1 & H2 & _); [lia|].
  eauto.
Qed.

(** white space before a string does not change what [trim_start] gives *)
Lemma trim_start_app (pre x : string) :
  all_white pre = true -> trim_start (pre +:+ x) = trim_start x.
Proof.
  intros Hpre.
  destruct (trim_start_facts (String.length pre) pre) as (_ & pre' & H1 & _ & H3); [lia|].
  apply all_white_empty in Hpre. rewrite Hpre in H1.
  rewrite append_nil_r in H1. subst pre'. apply H3.
Qed.

Lemma all_white_app (x y : string) :
  all_white x = true -> all_white y = true -> all_white (x +:+ y) = true.
Proof.
  intros Hx Hy. apply all_white_empty. rewrite trim_start_app by exact Hx.
  apply all_white_empty, Hy.
Qed.

Lemma trim_end_split (s : string) :
  exists post : string, s = trim_end s +:+ post /\ all_white post = true.
Proof.
  induction s as [|c s (post & Hs & Hpost)].
  - exists EmptyString. split; reflexivity.
  - cbn [trim_end]. destruct (all_white (String c s)) eqn:Hw.
    + exists (String c s). split; [reflexivity|exact Hw].
    + exists post. split; [|exact Hpost].
      change (String c s = String c (trim_end s +:+ post)). f_equal. exact Hs.
Qed.

Lemma trim_end_ends (s : string) : ends_white (trim_end s) = false.
Proof.
  induction s as [|c s IH]; [reflexivity|].
  cbn [trim_end]. destruct (all_white (String c s)) eqn:Hw; [reflexivity|].
  cbn [ends_white]. rewrite IH, orb_false_r.
  destruct (all_white (String c (trim_end s))) eqn:Hw'; [|reflexivity].
  destruct (trim_end_split s) as (post & Hs & Hpost).
  pose proof (all_white_app _ _ Hw' Hpost) as Hall.
  change (String c (trim_end s) +:+ post) with (String c (trim_end s +:+ post)) in Hall.
  rewrite <- Hs, Hw in Hall. discriminate.
Qed.

Lemma trim_end_starts (s : string) :
  starts_white s = false -> starts_white (trim_end s) = false.
Proof.
  intros Hs. unfold starts_white in *.
  destruct (strip_space (trim_end s)) as [r|] eqn:Hr; [|reflexivity].
  destruct (strip_space_split _ _ Hr) as (w & Hw & _ & Hstrip).
  destruct (trim_end_split s) as (post & Hsplit & _).
  rewrite Hw, append_assoc in Hsplit. rewrite Hsplit, Hstrip in Hs. discriminate.
Qed.



Lemma trim_white (s : string) :
  starts_white (trim s) = false /\ ends_white (trim s) = false.
Proof.
  unfold trim. split; [apply trim_end_starts, trim_start_starts|apply trim_end_ends].
Qed.


Lemma trim_split (s : string) :
  exists pre post : string,
    s = pre +:+ trim s +:+ post /\ all_white pre = true /\ all_white post = true.
Proof.
  destruct (trim_start_split s) as (pre & Hs & Hpre).
  destruct (trim_end_split (trim_start s)) as (post & Ht & Hpost).
  exists pre, post. unfold trim. rewrite <- Ht. auto.
Qed.

(** the white space of ECMAScript beyond ASCII is removed as well: a title
    between a no-break space and a byte order mark *)
Example trim_unicode :
  let nbsp := String (ascii_of_nat 194) (String (ascii_of_nat 160) EmptyString) in
  let bom := String (ascii_of_nat 239)
               (String (ascii_of_nat 187) (String (ascii_of_nat 191) EmptyString)) in
  trim (nbsp +:+ " a b " +:+ bom +:+ " ") = "a b"%string.
Proof. reflexivity. Qed.

(** X4.  Every Item an extraction gives comes from a row of the document, and
    its title is the text of the row's title element without the white space
    around it: the text is [pre ++ title ++ post] with [pre] and [post] white
    space from end to end (the white space of ECMAScript, U+00A0, U+FEFF and
    the other Unicode spaces included), and the title neither starts nor ends
    with a white space code point. *)
Theorem X4_titles_are_trimmed (doc : Document) (it : Item) :
  it ∈ evaluate doc ->
  exists (row : Row) (text pre post : string),
    row ∈ rows doc /\ titleEl row = Some text /\
    text = pre +:+ title it +:+ post /\
    all_white pre = true /\ all_white post = true /\
    starts_white (title it) = false /\ ends_white (title it) = false.
Proof.
  rewrite evaluate_omap. intros Hin.
  apply list_elem_of_omap in Hin as (row & Hrow & Hadm).
  apply admitted_Some in Hadm as (text & href & Ht & _ & _ & ->).
  destruct (trim_split text) as (pre & post & Hs & Hpre & Hpost).
  destruct (trim_white text) as [H1 H2].
  exists row, text, pre, post. cbn [title].
  repeat split; assumption.
Qed.

Lemma X4_witness :
  exists (row : Row) (text pre post : string),
    row ∈ rows (paged 2 0) /\ titleEl row = Some text /\
    text = pre +:+ title (item "Story 1" (Fin 1000)) +:+ post /\
    all_white pre = true /\ all_white post = true /\
    starts_white (title (item "Story 1" (Fin 1000))) = false /\
    ends_white (title (item "Story 1" (Fin 1000))) = false.
Proof.
  apply (X4_titles_are_trimmed (paged 2 0) (item "Story 1" (Fin 1000))).
  right. left.
Defined.

(** ** The sort (line 80) *)

(** X5.  The sorted sample is a rearrangement of the first [n] Items of the
    array: the same Items, each as often, and as many as there are, [n] at
    most. *)
Theorem X5_sorted_sample_is_a_rearrangement (n : nat) (articles : list Item) :
  top_sorted n articles ≡ₚ take n articles /\
  length (top_sorted n articles) = Nat.min n (length articles) /\
  forall it : Item, it ∈ top_sorted n articles <-> it ∈ take n articles.
Proof.
  unfold top_sorted. split; [apply sort_by_perm|].
  split; [rewrite sort_by_length; apply length_take|].
  intros it. rewrite (sort_by_perm by_timestamp_desc (take n articles)). reflexivity.
Qed.

Lemma gt_irrefl (a : number) : gt a a = false.
Proof. destruct a; simpl; try reflexivity. apply Z.ltb_irrefl. Qed.

Lemma with_timestamp_insert (t : number) (x : Item) (l : list Item) :
  with_timestamp t (insert_by by_timestamp_desc x l) = with_timestamp t (x :: l).
Proof.
  induction l as [|y l IH]; [reflexivity|].
  rewrite insert_desc_unfold.
  destruct (gt (timestamp y) (timestamp x)) eqn:Hgt; [|reflexivity].
  unfold with_timestamp in *. cbn [List.filter] in *. rewrite IH.
  destruct (bool_decide (timestamp x = t)) eqn:Hx; [|reflexivity].
  apply bool_decide_eq_true in Hx.
  destruct (bool_decide (timestamp y = t)) eqn:Hy; [|reflexivity].
  apply bool_decide_eq_true in Hy.
  rewrite Hx, Hy, gt_irrefl in Hgt. discriminate.
Qed.

(** X6.  The sort is stable: the Items that share a timestamp come out in
    the order they had in the array. *)
Theorem X6_sort_is_stable (t : number) (l : list Item) :
  with_timestamp t (sort_by by_timestamp_desc l) = with_timestamp t l.
Proof.
  induction l as [|x l IH]; [reflexivity|].
  simpl sort_by. rewrite with_timestamp_insert.
  unfold with_timestamp in *. cbn [List.filter]. rewrite IH. reflexivity.
Qed.

Lemma first_violation_tail (x : Item) (l : list Item) :
  first_violation (x :: l) = None -> first_violation l = None.
Proof.
  destruct l as [|y l]; [reflexivity|]. simpl.
  destruct (gt (timestamp y) (timestamp x)); [discriminate|].
  apply scan_from_index.
Qed.

(** X7.  The scan of lines 97-104 accepts an array exactly when the sort of
    line 80 leaves that array as it is: what the scan tests is that the array
    is what the sort returns. *)
Theorem X7_scan_accepts_what_the_sort_fixes (l : list Item) :
  first_violation l = None <-> sort_by by_timestamp_desc l = l.
Proof.
  split.
  - induction l as [|x l IH]; intros H; [reflexivity|].
    simpl sort_by. rewrite (IH (first_violation_tail x l H)).
    destruct l as [|y l]; [reflexivity|].
    rewrite insert_desc_unfold. simpl in H.
    destruct (gt (timestamp y) (timestamp x)); [discriminate|reflexivity].
  - intros H. rewrite <- H. apply sort_scan_passes.
Qed.

(** ** The scan (lines 97-104) *)

Lemma scan_from_None (k : nat) (p : Item) (l : list Item) :
  scan_from k p l = None <->
  forall (j : nat) (a b : Item),
    (p :: l) !! j = Some a -> (p :: l) !! S j = Some b ->
    gt (timestamp b) (timestamp a) = false.
Proof.
  revert k p. induction l as [|y l IH]; intros k p; simpl.
  - split; [|reflexivity]. intros _ j a b _ H. destruct j; discriminate.
  - destruct (gt (timestamp y) (timestamp p)) eqn:Hgt.
    + split; [discriminate|]. intros H.
      rewrite (H 0%nat p y eq_refl eq_refl) in Hgt. discriminate.
    + rewrite IH. split.
      * intros H [|j] a b Ha Hb; [simpl in *; congruence|]. apply (H j); assumption.
      * intros H j a b Ha Hb. apply (H (S j)); assumption.
Qed.

Lemma first_violation_None (l : list Item) :
  first_violation l = None <->
  forall (j : nat) (a b : Item),
    l !! j = Some a -> l !! S j = Some b -> gt (timestamp b) (timestamp a) = false.
Proof.
  destruct l as [|p l]; [|apply scan_from_None].
  split; [|reflexivity]. intros _ j a b H. discriminate.
Qed.

(** X8.  The scan reports the first violation: it gives [(i, cur, prev)]
    exactly when [i >= 1] is the least position with
    [top100[i].timestamp > top100[i-1].timestamp], [cur] and [prev] being the
    Items at [i] and [i - 1]; it gives nothing exactly when there is no such
    position. *)
Theorem X8_scan_reports_the_first_violation (l : list Item) (i : nat)
    (cur prev : Item) :
  (first_violation l = Some (i, cur, prev) <->
   exists j : nat, i = S j /\ l !! j = Some prev /\ l !! i = Some cur /\
     gt (timestamp cur) (timestamp prev) = true /\
     forall (j' : nat) (a b : Item), (j' < j)%nat ->
       l !! j' = Some a -> l !! S j' = Some b ->
       gt (timestamp b) (timestamp a) = false) /\
  (first_violation l = None <->
   forall (j : nat) (a b : Item),
     l !! j = Some a -> l !! S j = Some b -> gt (timestamp b) (timestamp a) = false).
Proof.
  split; [|apply first_violation_None].
  split; [apply first_violation_Some|].
  intros (j & -> & Hp & Hc & Hgt & Hmin).
  destruct (first_violation l) as [[[i' cur'] prev']|] eqn:Hf.
  - apply first_violation_Some in Hf as (j' & -> & Hp' & Hc' & Hgt' & Hmin').
    destruct (Nat.lt_trichotomy j j') as [Hlt | [-> | Hlt]].
    + rewrite (Hmin' j prev cur Hlt Hp Hc) in Hgt. discriminate.
    + congruence.
    + rewrite (Hmin j' prev' cur' Hlt Hp' Hc') in Hgt'. discriminate.
  - rewrite (proj1 (first_violation_None l) Hf j prev cur Hp Hc) in Hgt. discriminate.
Qed.

(** ** The loop (lines 38-77) *)

Section LoopFacts.
Variable Page : Type.
Variable document : Page -> Document.
Variable more : Page -> option Page.

Local Abbreviation accumulate := (accumulate Page document more).
Local Abbreviation ev := (fun p : Page => evaluate (document p)).




(** the calls of a loop: evaluations and clicks in turn, counted *)
Lemma accumulate_calls (target fuel : nat) (a : ref) (st : State Page) :
  (a < length (arrays st))%nat ->
  let r := accumulate target fuel a st in
  exists cs : list Call,
    calls r.2 = calls st ++ cs /\
    alternates true cs = true /\
    match r.1 with
    | Normal _ =>
        if (length (contents a st) <? target)%nat
        then length (List.filter is_evaluate cs) = S (length (clicks cs)) /\
             (length (List.filter is_evaluate cs) < fuel)%nat
        else cs = []
    | Throw _ =>
        (length (contents a st) < target)%nat /\
        length (List.filter is_evaluate cs) = length (clicks cs) /\
        (length (List.filter is_evaluate cs) <= fuel)%nat /\
        page r.2 ≫= more = None
    | Diverge => True
    end.
Proof.
  revert st. induction fuel as [|fuel IH]; intros st Ha r; unfold r; clear r.
  - exists []. rewrite app_nil_r. repeat split.
  - rewrite accumulate_step by exact Ha. cbn zeta.
    set (new := from_option (fun p => evaluate (document p)) [] (page st)).
    destruct (length (contents a st) <? target)%nat eqn:Hn.
    2:{ exists []. rewrite app_nil_r. cbn [fst snd]. repeat split. }
    destruct (length (contents a st ++ new) <? target)%nat eqn:Hn'.
    + destruct (page st ≫= more) as [p|] eqn:Hm.
      * match goal with |- context [accumulate _ _ _ ?s] => set (st2 := s) end.
        assert (Ha2 : (a < length (arrays st2))%nat)
          by (unfold st2; cbn [arrays]; rewrite length_insert; exact Ha).
        destruct (IH st2 Ha2) as (cs & Hcalls & Halt & Hres).
        exists (Evaluate :: ClickMore (arrays st2) :: cs).
        split; [rewrite Hcalls; unfold st2; cbn [calls arrays];
                rewrite <- !app_assoc; reflexivity|].
        split; [exact Halt|].
        unfold st2 in Hres at 2 3. rewrite contents_insert in Hres by exact Ha.
        rewrite Hn' in Hres.
        destruct (accumulate target fuel a st2).1; [| |exact I].
        -- destruct Hres as [H1 H2]. cbn. rewrite H1. split; [reflexivity|lia].
        -- destruct Hres as (_ & H1 & H2 & H3). cbn. rewrite H1.
           apply Nat.ltb_lt in Hn. repeat split; [exact Hn|lia|exact H3].
      * exists [Evaluate; ClickMore (<[a := contents a st ++ new]> (arrays st))].
        cbn [fst snd calls page]. rewrite <- app_assoc.
        apply Nat.ltb_lt in Hn. repeat split; [exact Hn|cbn; lia|exact Hm].
    + match goal with |- context [accumulate _ _ _ ?s] => set (st2 := s) end.
      assert (Ha2 : (a < length (arrays st2))%nat)
        by (unfold st2; cbn [arrays]; rewrite length_insert; exact Ha).
      apply Nat.ltb_ge in Hn'.
      assert (Hc2 : (target <= length (contents a st2))%nat)
        by (unfold st2; rewrite contents_insert by exact Ha; exact Hn').
      exists [Evaluate]. destruct fuel as [|fuel].
      * cbn [Bot.accumulate diverge fst snd]. unfold st2. cbn [calls].
        repeat split.
      * rewrite accumulate_done by assumption. cbn [fst snd]. unfold st2. cbn [calls].
        split; [reflexivity|]. split; [reflexivity|]. cbn. split; [reflexivity|lia].
Qed.

End LoopFacts.


Section LoopByPages.
Variable Page : Type.
Variable document : Page -> Document.
Variable more : Page -> option Page.

Local Abbreviation accumulate := (accumulate Page document more).

(** X10.  As long as the extractions return, the loop calls the browser
    strictly in turn: an evaluation, then a click, then an evaluation, and so
    on, starting with an evaluation.  When the loop ends normally from an
    array below the target it has made one evaluation more than clicks (the
    last turn does not click); from an array already at the target it calls
    nothing. *)
Theorem X10_loop_calls_alternate (target fuel : nat) (articles : ref)
    (st : State Page) :
  (articles < length (arrays st))%nat ->
  let r := accumulate target fuel articles st in
  exists cs : list Call,
    calls r.2 = calls st ++ cs /\
    alternates true cs = true /\
    (r.1 = Normal tt -> (length (contents articles st) < target)%nat ->
     length (List.filter is_evaluate cs) = S (length (clicks cs))) /\
    (r.1 = Normal tt -> (target <= length (contents articles st))%nat -> cs = []).
Proof.
  intros Ha r.
  destruct (accumulate_calls Page document more target fuel articles st Ha)
    as (cs & Hcalls & Halt & Hres).
  fold r in Hcalls, Hres.
  exists cs. split; [exact Hcalls|]. split; [exact Halt|].
  destruct r.1 as [u|e|]; repeat split; try discriminate.
  - intros _ Hlt. apply Nat.ltb_lt in Hlt. rewrite Hlt in Hres. apply Hres.
  - intros _ Hge. apply Nat.ltb_ge in Hge. rewrite Hge in Hres. exact Hres.
Qed.

Lemma trail_one (p : Page) : trail more 1 p = [p].
Proof. simpl. destruct (more p); reflexivity. Qed.

Lemma trail_step (m : nat) (p : Page) :
  length (trail more (S (S m)) p) = S (S m) ->
  exists p' : Page,
    more p = Some p' /\ length (trail more (S m) p') = S m /\
    forall n : nat, trail more (S n) p = p :: trail more n p'.
Proof.
  intros H. change (trail more (S (S m)) p)
    with (p :: match more p with Some p' => trail more (S m) p' | None => [] end) in H.
  destruct (more p) as [p'|] eqn:Hm; [|discriminate H].
  exists p'. split; [reflexivity|]. split; [cbn [length] in H; lia|].
  intros n. simpl. rewrite Hm. reflexivity.
Qed.

Lemma trail_end (m : nat) (p : Page) :
  length (trail more (S m) p) = S m -> length (trail more (S (S m)) p) = S m ->
  match m with
  | O => more p = None
  | S m' =>
      exists p' : Page,
        more p = Some p' /\ length (trail more (S m') p') = S m' /\
        length (trail more (S (S m')) p') = S m' /\
        forall n : nat, trail more (S n) p = p :: trail more n p'
  end.
Proof.
  intros H1 H2. destruct m as [|m'].
  - change (trail more 2 p)
      with (p :: match more p with Some p' => trail more 1 p' | None => [] end) in H2.
    destruct (more p) as [p'|]; [|reflexivity].
    rewrite trail_one in H2. discriminate H2.
  - destruct (trail_step m' p H1) as (p' & Hm & Hl & Ht).
    exists p'. split; [exact Hm|]. split; [exact Hl|]. split; [|exact Ht].
    rewrite Ht in H2. cbn [length] in H2. lia.
Qed.

Lemma harvest_cons (p : Page) (ps : list Page) :
  harvest document (p :: ps) = evaluate (document p) ++ harvest document ps.
Proof. reflexivity. Qed.

Lemma accumulate_by_pages (target : nat) (a : ref) (m : nat) :
  forall (st : State Page) (p : Page) (k : nat),
    (a < length (arrays st))%nat -> page st = Some p ->
    length (trail more (S m) p) = S m ->
    (length (contents a st ++ harvest document (trail more m p)) < target)%nat ->
    (target <= length (contents a st ++ harvest document (trail more (S m) p)))%nat ->
    let r := accumulate target (S (S m) + k) a st in
    r.1 = Normal tt /\
    contents a r.2 = contents a st ++ harvest document (trail more (S m) p) /\
    length (clicks (calls r.2)) = (length (clicks (calls st)) + m)%nat /\
    length (arrays r.2) = length (arrays st).
Proof.
  induction m as [|m IH]; intros st p k Ha Hp Hlen Hlt Hge r; unfold r; clear r.
  - rewrite trail_one in *. cbn [trail] in Hlt.
    rewrite harvest_cons in Hge. unfold harvest in Hlt, Hge. cbn [map concat] in Hlt, Hge.
    rewrite !app_nil_r in *. change (2 + k)%nat with (S (S k)).
    destruct (accumulate_turn_enough Page document more target (S k) a st p)
      as (st1 & -> & Hp1 & Hc1 & Ha1 & Hk1); try assumption.
    rewrite accumulate_done; [|rewrite Ha1; exact Ha|rewrite Hc1; exact Hge].
    cbn [fst snd]. rewrite harvest_cons. unfold harvest at 1. cbn [map concat].
    rewrite app_nil_r, Hk1, Nat.add_0_r. auto.
  - destruct (trail_step m p Hlen) as (p' & Hm & Hlen' & Ht).
    rewrite Ht in Hlt. rewrite Ht in Hge. rewrite harvest_cons in Hlt, Hge.
    assert (Hlt0 : (length (contents a st ++ evaluate (document p)) < target)%nat).
    { rewrite !length_app in *. lia. }
    destruct (accumulate_turn_click Page document more target (S (S m) + k) a st p p')
      as (st1 & Heq & Hp1 & Hc1 & Ha1 & Hk1); try assumption.
    { rewrite !length_app in *. lia. }
    change (S (S (S m)) + k)%nat with (S (S (S m) + k)). rewrite Heq.
    assert (Ha' : (a < length (arrays st1))%nat) by (rewrite Ha1; exact Ha).
    destruct (IH st1 p' k Ha' Hp1 Hlen') as (H1 & H2 & H3 & H4).
    { rewrite Hc1, <- app_assoc. exact Hlt. }
    { rewrite Hc1, <- app_assoc. exact Hge. }
    split; [exact H1|].
    split; [rewrite H2, Hc1, Ht, harvest_cons, <- app_assoc; reflexivity|].
    split; [rewrite H3, Hk1, length_app; simpl; lia|].
    rewrite H4. exact Ha1.
Qed.

(** X11.  What the loop gathers is fixed by the pages the clicks lead
    through.  If the first [m + 1] pages from the current one exist, hold
    together, after what the array has, at least [target] Items, and the first
    [m] of them fewer, then the loop ends (any fuel from [m + 2] on) after
    exactly [m] clicks, and the array is what it was followed by the
    extractions of those [m + 1] pages in order, nothing dropped and nothing
    deduplicated. *)
Theorem X11_loop_gathers_the_pages_in_order (target : nat) (articles : ref)
    (m : nat) (st : State Page) (p : Page) (k : nat) :
  (articles < length (arrays st))%nat -> page st = Some p ->
  length (trail more (S m) p) = S m ->
  (length (contents articles st ++ harvest document (trail more m p)) < target)%nat ->
  (target <= length (contents articles st ++ harvest document (trail more (S m) p)))%nat ->
  let r := accumulate target (S (S m) + k) articles st in
  r.1 = Normal tt /\
  contents articles r.2 = contents articles st ++ harvest document (trail more (S m) p) /\
  length (clicks (calls r.2)) = (length (clicks (calls st)) + m)%nat.
Proof.
  intros Ha Hp Hlen Hlt Hge r.
  destruct (accumulate_by_pages target articles m st p k Ha Hp Hlen Hlt Hge)
    as (H1 & H2 & H3 & _).
  auto.
Qed.

End LoopByPages.

Lemma X10_witness :
  let r := Bot.accumulate nat (paged 40) next_page 100 10 0 (loop_start 0%nat) in
  exists cs : list Call,
    calls r.2 = calls (loop_start 0%nat) ++ cs /\
    alternates true cs = true /\
    (r.1 = Normal tt -> (length (contents 0 (loop_start 0%nat)) < 100)%nat ->
     length (List.filter is_evaluate cs) = S (length (clicks cs))) /\
    (r.1 = Normal tt -> (100 <= length (contents 0 (loop_start 0%nat)))%nat -> cs = []).
Proof.
  apply (X10_loop_calls_alternate nat (paged 40) next_page 100 10 0 (loop_start 0%nat)).
  simpl. lia.
Defined.

Lemma X11_witness :
  let r := accumulate nat (paged 30) same_page 100 (S (S 3) + 0) 0 (loop_start 0%nat) in
  r.1 = Normal tt /\
  contents 0 r.2
  = contents 0 (loop_start 0%nat) ++ harvest (paged 30) (trail same_page (S 3) 0%nat) /\
  length (clicks (calls r.2)) = (length (clicks (calls (loop_start 0%nat))) + 3)%nat.
Proof.
  apply (X11_loop_gathers_the_pages_in_order nat (paged 30) same_page 100 0 3
           (loop_start 0%nat) 0%nat 0).
  - simpl. lia.
  - reflexivity.
  - reflexivity.
  - vm_compute. lia.
  - vm_compute. lia.
Defined.

(** A [.morelink] that reloads the page makes the loop take the same 30
    stories four times over: 120 Items, each story four times. *)
Example reloading_duplicates :
  let r := accumulate nat (paged 30) same_page 100 6 0 (loop_start 0%nat) in
  contents 0 r.2
  = evaluate (paged 30 0) ++ evaluate (paged 30 0) ++ evaluate (paged 30 0)
    ++ evaluate (paged 30 0).
Proof. vm_compute. reflexivity. Qed.

(** ** C7 *)

Section Batches.
Variable Page : Type.
Variable document : Page -> Document.
Variable more : Page -> option Page.





End Batches.



(** ** Whole runs (lines 26-113) *)

Lemma verify_top_sorted (n : nat) (articles : list Item) :
  verify (top_sorted n articles) = Normal tt.
Proof. unfold verify, top_sorted. rewrite sort_scan_passes. reflexivity. Qed.

Lemma filter_none {A : Type} (f : A -> bool) (l : list A) :
  existsb f l = false -> List.filter f l = [].
Proof.
  induction l as [|x l IH]; simpl; [reflexivity|].
  intros H. apply orb_false_iff in H as [-> H]. apply IH, H.
Qed.

Lemma filter_all {A : Type} (f : A -> bool) (l : list A) :
  forallb f l = true -> List.filter f l = l.
Proof.
  induction l as [|x l IH]; simpl; [reflexivity|].
  intros H. apply andb_true_iff in H as [-> H]. rewrite IH by exact H. reflexivity.
Qed.

Lemma alternates_no_close (b : bool) (cs : list Call) :
  alternates b cs = true -> existsb is_close cs = false.
Proof.
  revert b. induction cs as [|c cs IH]; intros b H; [reflexivity|].
  destruct c; simpl in *; try discriminate.
  - apply andb_true_iff in H as [_ H]. eapply IH, H.
  - apply andb_true_iff in H as [_ H]. eapply IH, H.
Qed.

Lemma singleton_store (h : Store) (x : list Item) :
  length h = 1%nat -> default [] (h !! 0%nat) = x -> h = [x].
Proof.
  destruct h as [|y [|z h]]; simpl; try discriminate. intros _ ->. reflexivity.
Qed.

Section RunFacts.
Variable Page : Type.
Variable document : Page -> Document.
Variable more : Page -> option Page.

Local Abbreviation accumulate := (accumulate Page document more).
Local Abbreviation run := (run Page document more).

(** The run, case by case, the scan never failing on what the sort returns. *)
Lemma run_cases (p : Page) (fuel : nat) :
  run (Some p) fuel =
  match accumulate TARGET fuel 0 (loop_start p) with
  | (Normal _, st) =>
      (Normal tt, finished (reported (top_sorted TARGET (contents 0 st)) st))
  | (Throw e, st) => (Normal tt, finished (caught e st))
  | (Diverge, st) => (Diverge, st)
  end.
Proof.
  rewrite run_eq. destruct (accumulate _ _ _ _) as [[u|e|] st]; try reflexivity.
  cbn zeta. rewrite verify_top_sorted. reflexivity.
Qed.

(** what a loop started by a run leaves *)
Lemma loop_of_run (p : Page) (fuel : nat) :
  let r := accumulate TARGET fuel 0 (loop_start p) in
  exists (infos : list Output) (cs : list Call),
    arrays r.2 = [contents 0 r.2] /\
    out r.2 = out (started (Some p)) ++ infos /\ forallb is_info infos = true /\
    calls r.2 = Goto :: cs /\ alternates true cs = true /\
    match r.1 with
    | Normal _ => (TARGET <= length (contents 0 r.2))%nat
    | Throw e => e = TimeoutError
    | Diverge => True
    end.
Proof.
  intros r.
  assert (Ha : (0 < length (arrays (loop_start p)))%nat) by (simpl; lia).
  destruct (accumulate_grows Page document more TARGET fuel 0 _ Ha) as [Hg Hc].
  destruct (grows_contents _ _ _ _ _ Ha Hg) as (extra & _ & _ & Hlen).
  destruct Hg as (_ & infos & _ & _ & _ & Hout & Hinfos & _ & _).
  destruct (accumulate_calls Page document more TARGET fuel 0 _ Ha)
    as (cs & Hcalls & Halt & _).
  fold r in Hc, Hlen, Hout, Hcalls.
  exists infos, cs.
  split; [apply singleton_store; [exact Hlen|reflexivity]|].
  repeat split; assumption.
Qed.

(** X15.  Lines 32-112, the browser being there: a run that ends normally
    has closed the browser exactly once, as its last call, after the one
    navigation that is its first, whether the [try] ended normally or what it
    threw was caught, and its last two lines are the closing line and "Bot
    execution completed."; a run still in its loop has not closed the
    browser. *)
Theorem X15_run_always_cleans_up (newest : option Page) (fuel : nat) :
  let r := run newest fuel in
  (r.1 = Normal tt ->
   exists (cs : list Call) (lines : list Output),
     calls r.2 = Goto :: cs ++ [Close] /\ existsb is_close cs = false /\
     out r.2 = Info "Bot started: Validating Hacker News newest articles..."
               :: lines ++ [Info "Closing browser..."; Success "Bot execution completed."]) /\
  (r.1 = Diverge -> existsb is_close (calls r.2) = false).
Proof.
  intros r. unfold r. clear r. destruct newest as [p|].
  2:{ rewrite run_eq. repeat split; try discriminate.
      intros _. exists [], [Info "Navigating to Hacker News 'newest' page...";
                            Failure NavigationError]. repeat split. }
  rewrite run_cases.
  destruct (loop_of_run p fuel) as (infos & cs & _ & Hout & _ & Hcalls & Halt & _).
  cbn zeta in *.
  destruct (accumulate TARGET fuel 0 (loop_start p)) as [[u|e|] st]; cbn [fst snd] in *.
  - split; [|discriminate]. intros _.
    exists cs, (Info "Navigating to Hacker News 'newest' page..."
                :: infos ++ report (top_sorted TARGET (contents 0 st))).
    unfold finished, reported. cbn [calls out].
    rewrite Hcalls, Hout. split; [reflexivity|].
    split; [eapply alternates_no_close, Halt|].
    cbn [started out app]. rewrite <- !app_assoc. reflexivity.
  - split; [|discriminate]. intros _.
    exists cs, (Info "Navigating to Hacker News 'newest' page..."
                :: infos ++ [Failure e]).
    unfold finished, caught. cbn [calls out].
    rewrite Hcalls, Hout. split; [reflexivity|].
    split; [eapply alternates_no_close, Halt|].
    cbn [started out app]. rewrite <- !app_assoc. reflexivity.
  - split; [discriminate|]. intros _.
    rewrite Hcalls. simpl. eapply alternates_no_close, Halt.
Qed.

(** X16.  A run that prints the success marker has listed exactly the first
    100 Items it gathered, rearranged: the store then holds the gathered
    array, of at least 100 Items and left in the order of arrival, and the
    sorted array, a rearrangement of its first 100; the listing lines of the
    output are the lines of the sorted array, numbered from 1. *)
Theorem X16_run_lists_the_first_100 (newest : option Page) (fuel : nat) :
  let r := run newest fuel in
  has_marker (out r.2) = true ->
  exists collection : list Item,
    arrays r.2 = [collection; top_sorted TARGET collection] /\
    (TARGET <= length collection)%nat /\
    top_sorted TARGET collection ≡ₚ take TARGET collection /\
    List.filter is_listing (out r.2) = listing (top_sorted TARGET collection) /\
    r.1 = Normal tt.
Proof.
  intros r. unfold r. clear r. destruct newest as [p|].
  2:{ rewrite run_eq. intros H. discriminate H. }
  rewrite run_cases.
  destruct (loop_of_run p fuel) as (infos & cs & Harr & Hout & Hinfos & _ & _ & Hres).
  cbn zeta in *.
  destruct (accumulate TARGET fuel 0 (loop_start p)) as [[u|e|] st]; cbn [fst snd] in *.
  - intros _. exists (contents 0 st). unfold finished, reported. cbn [arrays out].
    rewrite Harr at 1. split; [reflexivity|]. split; [exact Hres|].
    split; [apply sort_by_perm|]. split; [|reflexivity].
    rewrite Hout, !List.filter_app.
    rewrite (filter_none is_listing infos) by apply infos_no_listing, Hinfos.
    unfold report. rewrite !List.filter_app.
    rewrite (filter_all is_listing (listing _)) by apply listing_is_listing.
    cbn [List.filter is_listing started out success_marker app].
    rewrite !app_nil_r. reflexivity.
  - unfold finished, caught. cbn [out]. rewrite Hout, !has_marker_app.
    rewrite (infos_no_marker _ Hinfos). intros H. subst e. discriminate H.
  - rewrite Hout, !has_marker_app, (infos_no_marker _ Hinfos). intros H. discriminate H.
Qed.

(** X17.  When the navigation of line 34 fails, the loop is never entered:
    whatever the site and the fuel, the run makes no evaluation and no click,
    allocates no array, prints the failure line of the navigation between
    the two opening lines and the two closing ones, closes the browser and
    ends normally. *)
Theorem X17_failed_navigation_stops_the_run (fuel : nat) :
  run None fuel =
  (Normal tt,
   {| page := None; arrays := [];
      out := [ Info "Bot started: Validating Hacker News newest articles...";
               Info "Navigating to Hacker News 'newest' page...";
               Failure NavigationError;
               Info "Closing browser..."; Success "Bot execution completed." ];
      calls := [Goto; Close] |}).
Proof. rewrite run_eq. reflexivity. Qed.

End RunFacts.

Lemma X16_witness :
  exists collection : list Item,
    arrays (run nat (paged 40) next_page (Some 0%nat) 4).2
    = [collection; top_sorted TARGET collection] /\
    (TARGET <= length collection)%nat /\
    top_sorted TARGET collection ≡ₚ take TARGET collection /\
    List.filter is_listing (out (run nat (paged 40) next_page (Some 0%nat) 4).2)
    = listing (top_sorted TARGET collection) /\
    (run nat (paged 40) next_page (Some 0%nat) 4).1 = Normal tt.
Proof.
  apply (X16_run_lists_the_first_100 nat (paged 40) next_page (Some 0%nat) 4).
  vm_compute. reflexivity.
Defined.

(** ** How the loop ends, or does not *)

Section LoopEnds.
Variable Page : Type.
Variable document : Page -> Document.
Variable more : Page -> option Page.

Local Abbreviation accumulate := (accumulate Page document more).
Local Abbreviation run := (run Page document more).

Lemma accumulate_turn_throw (target fuel : nat) (a : ref) (st : State Page) (p : Page) :
  (a < length (arrays st))%nat -> page st = Some p -> more p = None ->
  (length (contents a st) < target)%nat ->
  (length (contents a st ++ evaluate (document p)) < target)%nat ->
  exists st' : State Page,
    accumulate target (S fuel) a st = (Throw TimeoutError, st') /\
    contents a st' = contents a st ++ evaluate (document p) /\
    length (arrays st') = length (arrays st) /\
    clicks (calls st') = clicks (calls st) ++ [arrays st'].
Proof.
  intros Ha Hp Hm Hn Hn'. rewrite accumulate_step by exact Ha. cbn zeta.
  rewrite Hp. cbn [from_option mbind option_bind]. rewrite Hm.
  apply Nat.ltb_lt in Hn, Hn'. rewrite Hn, Hn'.
  eexists. split; [reflexivity|]. cbn [page arrays calls].
  split; [apply contents_insert, Ha|].
  split; [apply length_insert|].
  unfold clicks. rewrite <- app_assoc, omap_app. reflexivity.
Qed.

Lemma accumulate_exhausted (target : nat) (a : ref) (m : nat) :
  forall (st : State Page) (p : Page) (k : nat),
    (a < length (arrays st))%nat -> page st = Some p ->
    length (trail more (S m) p) = S m ->
    length (trail more (S (S m)) p) = S m ->
    (length (contents a st ++ harvest document (trail more (S m) p)) < target)%nat ->
    let r := accumulate target (S m + k) a st in
    r.1 = Throw TimeoutError /\
    contents a r.2 = contents a st ++ harvest document (trail more (S m) p) /\
    length (clicks (calls r.2)) = (length (clicks (calls st)) + S m)%nat.
Proof.
  induction m as [|m IH]; intros st p k Ha Hp Hl1 Hl2 Hlt r; unfold r; clear r.
  - pose proof (trail_end Page more 0 p Hl1 Hl2) as Hm. cbn in Hm.
    rewrite (trail_one Page more) in *.
    rewrite harvest_cons in *. unfold harvest in *. cbn [map concat] in *.
    rewrite app_nil_r in *.
    change (1 + k)%nat with (S k).
    destruct (accumulate_turn_throw target k a st p) as (st1 & -> & Hc1 & _ & Hk1);
      try assumption.
    { rewrite length_app in Hlt. lia. }
    cbn [fst snd]. rewrite Hk1, length_app. simpl. auto.
  - destruct (trail_end Page more (S m) p Hl1 Hl2) as (p' & Hm & Hl1' & Hl2' & Ht).
    rewrite Ht in Hlt. rewrite harvest_cons in Hlt.
    destruct (accumulate_turn_click Page document more target (S m + k) a st p p')
      as (st1 & Heq & Hp1 & Hc1 & Ha1 & Hk1); try assumption.
    { rewrite !length_app in *. lia. }
    { rewrite !length_app in *. lia. }
    change (S (S m) + k)%nat with (S (S m + k)). rewrite Heq.
    assert (Ha' : (a < length (arrays st1))%nat) by (rewrite Ha1; exact Ha).
    destruct (IH st1 p' k Ha' Hp1 Hl1' Hl2') as (H1 & H2 & H3).
    { rewrite Hc1, <- app_assoc. exact Hlt. }
    split; [exact H1|].
    split; [rewrite H2, Hc1, Ht, harvest_cons, <- app_assoc; reflexivity|].
    rewrite H3, Hk1, length_app. simpl. lia.
Qed.

(** X12.  A source that runs out stops the run with the one failure line.
    If the site has exactly [m + 1] pages from the start page on, the last one
    without [.morelink], and they hold fewer than 100 Items together, then the
    run ends normally (any fuel from [m + 1] on) after [m + 1] clicks, the
    last of which timed out: its output has the failure line of the timeout
    and no other, no success marker and no line of a listing, and the one
    array of the store holds what was gathered, unsorted. *)
Theorem X12_exhausted_source_fails_the_run (m k : nat) (p : Page) :
  length (trail more (S m) p) = S m ->
  length (trail more (S (S m)) p) = S m ->
  (length (harvest document (trail more (S m) p)) < TARGET)%nat ->
  let r := run (Some p) (S m + k) in
  r.1 = Normal tt /\
  List.filter is_failure (out r.2) = [Failure TimeoutError] /\
  has_marker (out r.2) = false /\
  existsb is_listing (out r.2) = false /\
  arrays r.2 = [harvest document (trail more (S m) p)] /\
  length (clicks (calls r.2)) = S m.
Proof.
  intros Hl1 Hl2 Hlt r. unfold r. clear r. rewrite run_cases.
  destruct (accumulate_exhausted TARGET 0 m (loop_start p) p k) as (H1 & H2 & H3);
    try assumption; try reflexivity.
  { simpl. lia. }
  destruct (loop_of_run Page document more p (S m + k))
    as (infos & cs & Harr & Hout & Hinfos & _ & _ & _).
  cbn zeta in *.
  destruct (accumulate TARGET (S m + k) 0 (loop_start p)) as [[u|e|] st];
    cbn [fst snd] in *; try discriminate.
  injection H1 as ->. unfold finished, caught. cbn [out arrays calls].
  split; [reflexivity|]. rewrite Hout.
  split; [rewrite !List.filter_app,
            (filter_none is_failure infos) by apply infos_no_failure, Hinfos;
          reflexivity|].
  split; [rewrite !has_marker_app, (infos_no_marker _ Hinfos); reflexivity|].
  split; [rewrite !existsb_app, (infos_no_listing _ Hinfos); reflexivity|].
  split; [rewrite Harr, H2; reflexivity|].
  unfold clicks in *. rewrite omap_app, length_app, H3. simpl. lia.
Qed.

Lemma accumulate_barren (target fuel : nat) (a : ref) :
  (forall p : Page, evaluate (document p) = []) ->
  (forall p : Page, is_Some (more p)) ->
  forall (st : State Page) (p : Page),
    (a < length (arrays st))%nat -> page st = Some p ->
    (length (contents a st) < target)%nat ->
    (accumulate target fuel a st).1 = Diverge.
Proof.
  intros Hev Hmore. induction fuel as [|fuel IH]; intros st p Ha Hp Hlt; [reflexivity|].
  destruct (Hmore p) as [p' Hp'].
  destruct (accumulate_turn_click Page document more target fuel a st p p')
    as (st1 & -> & Hp1 & Hc1 & Ha1 & _); try assumption.
  { rewrite Hev, app_nil_r. exact Hlt. }
  apply (IH st1 p'); [rewrite Ha1; exact Ha|exact Hp1|].
  rewrite Hc1, Hev, app_nil_r. exact Hlt.
Qed.

(** X13.  The loop has no bound of its own.  On a site whose pages never
    give an Item and always have a [.morelink], the run never leaves the
    loop: whatever the fuel, it is still running, has printed neither a
    failure line nor the success marker, and has not closed the browser. *)
Theorem X13_barren_site_never_ends (p : Page) (fuel : nat) :
  (forall q : Page, evaluate (document q) = []) ->
  (forall q : Page, is_Some (more q)) ->
  let r := run (Some p) fuel in
  r.1 = Diverge /\
  has_failure (out r.2) = false /\ has_marker (out r.2) = false /\
  existsb is_close (calls r.2) = false.
Proof.
  intros Hev Hmore r. unfold r. clear r. rewrite run_cases.
  pose proof (accumulate_barren TARGET fuel 0 Hev Hmore (loop_start p) p) as Hd.
  destruct (loop_of_run Page document more p fuel)
    as (infos & cs & _ & Hout & Hinfos & Hcalls & Halt & _).
  cbn zeta in *.
  destruct (accumulate TARGET fuel 0 (loop_start p)) as [[u|e|] st]; cbn [fst snd] in *;
    try (discriminate Hd; [simpl; lia|reflexivity|simpl; unfold TARGET; lia]).
  split; [reflexivity|]. rewrite Hout, Hcalls.
  split; [rewrite has_failure_app, (infos_no_failure _ Hinfos); reflexivity|].
  split; [rewrite has_marker_app, (infos_no_marker _ Hinfos); reflexivity|].
  simpl. eapply alternates_no_close, Halt.
Qed.

Lemma accumulate_fuel_mono (target fuel k : nat) (a : ref) :
  forall st : State Page,
    (a < length (arrays st))%nat ->
    (accumulate target fuel a st).1 <> Diverge ->
    accumulate target (fuel + k) a st = accumulate target fuel a st.
Proof.
  induction fuel as [|fuel IH]; intros st Ha H; [contradiction H; reflexivity|].
  change (S fuel + k)%nat with (S (fuel + k)).
  rewrite accumulate_step in H by exact Ha. rewrite !accumulate_step by exact Ha.
  cbn zeta in *.
  destruct (_ <? target)%nat; [|reflexivity].
  destruct (_ <? target)%nat.
  - destruct (page st ≫= more); [|reflexivity].
    apply IH; [cbn [arrays]; rewrite length_insert; exact Ha|exact H].
  - apply IH; [cbn [arrays]; rewrite length_insert; exact Ha|exact H].
Qed.

Lemma accumulate_progress (target : nat) (a : ref) :
  (forall p : Page, evaluate (document p) <> []) ->
  (forall p : Page, is_Some (more p)) ->
  forall (d : nat) (st : State Page) (p : Page),
    (a < length (arrays st))%nat -> page st = Some p ->
    (target <= length (contents a st) + d)%nat ->
    (accumulate target (S d) a st).1 = Normal tt.
Proof.
  intros Hev Hmore. induction d as [|d IH]; intros st p Ha Hp Hd.
  - rewrite accumulate_done; [reflexivity|exact Ha|lia].
  - destruct (decide (target <= length (contents a st))%nat) as [Hge|Hlt].
    { rewrite accumulate_done; [reflexivity|exact Ha|exact Hge]. }
    assert (Hnew : (0 < length (evaluate (document p)))%nat).
    { specialize (Hev p). destruct (evaluate (document p)); [contradiction|simpl; lia]. }
    destruct (decide (target <= length (contents a st ++ evaluate (document p)))%nat)
      as [Hge'|Hlt'].
    + destruct (accumulate_turn_enough Page document more target (S d) a st p)
        as (st1 & -> & Hp1 & Hc1 & Ha1 & _); try assumption; [lia|].
      apply (IH st1 p); [rewrite Ha1; exact Ha|exact Hp1|]. rewrite Hc1. lia.
    + destruct (Hmore p) as [p' Hp'].
      destruct (accumulate_turn_click Page document more target (S d) a st p p')
        as (st1 & -> & Hp1 & Hc1 & Ha1 & _); try assumption; [lia|lia|].
      apply (IH st1 p'); [rewrite Ha1; exact Ha|exact Hp1|].
      rewrite Hc1, length_app. lia.
Qed.

(** X14.  The loop ends when every page gives something.  On a site whose
    every page gives at least one Item and has a [.morelink], the loop ends
    normally from any state on a page, for any fuel above the number [d] of
    Items still missing, after at most [d] evaluations (and one click fewer),
    with the array at the target or beyond. *)
Theorem X14_loop_ends_when_pages_give_items (target : nat) (articles : ref)
    (st : State Page) (p : Page) (k : nat) :
  (forall q : Page, evaluate (document q) <> []) ->
  (forall q : Page, is_Some (more q)) ->
  (articles < length (arrays st))%nat -> page st = Some p ->
  (length (contents articles st) < target)%nat ->
  let d := (target - length (contents articles st))%nat in
  let r := accumulate target (S d + k) articles st in
  r.1 = Normal tt /\
  (target <= length (contents articles r.2))%nat /\
  exists cs : list Call,
    calls r.2 = calls st ++ cs /\
    (length (List.filter is_evaluate cs) <= d)%nat /\
    length (List.filter is_evaluate cs) = S (length (clicks cs)).
Proof.
  intros Hev Hmore Ha Hp Hlt d r.
  assert (Hn : (accumulate target (S d) articles st).1 = Normal tt).
  { apply (accumulate_progress target articles Hev Hmore d st p Ha Hp). unfold d. lia. }
  assert (Heq : r = accumulate target (S d) articles st).
  { unfold r. apply accumulate_fuel_mono; [exact Ha|]. rewrite Hn. discriminate. }
  rewrite Heq. split; [exact Hn|].
  pose proof (proj2 (accumulate_grows Page document more target (S d) articles st Ha))
    as Hg. rewrite Hn in Hg. split; [exact Hg|].
  destruct (accumulate_calls Page document more target (S d) articles st Ha)
    as (cs & Hcalls & _ & Hres).
  rewrite Hn in Hres. apply Nat.ltb_lt in Hlt. rewrite Hlt in Hres.
  exists cs. split; [exact Hcalls|]. split; [lia|apply Hres].
Qed.

End LoopEnds.

Lemma X12_witness :
  let r := run nat (paged 40) (last_page 2) (Some 0%nat) (S 1 + 0) in
  r.1 = Normal tt /\
  List.filter is_failure (out r.2) = [Failure TimeoutError] /\
  has_marker (out r.2) = false /\
  existsb is_listing (out r.2) = false /\
  arrays r.2 = [harvest (paged 40) (trail (last_page 2) (S 1) 0%nat)] /\
  length (clicks (calls r.2)) = S 1.
Proof.
  apply (X12_exhausted_source_fails_the_run nat (paged 40) (last_page 2) 1 0 0%nat).
  - reflexivity.
  - reflexivity.
  - vm_compute. lia.
Defined.

Lemma X13_witness :
  let r := run nat barren next_page (Some 0%nat) 50 in
  r.1 = Diverge /\
  has_failure (out r.2) = false /\ has_marker (out r.2) = false /\
  existsb is_close (calls r.2) = false.
Proof.
  apply (X13_barren_site_never_ends nat barren next_page 0%nat 50).
  - intros q. reflexivity.
  - intros q. eexists. reflexivity.
Defined.

Lemma X14_witness :
  let st := loop_start 0%nat in
  let d := (100 - length (contents 0 st))%nat in
  let r := accumulate nat (fun _ => paged 40 0) next_page 100 (S d + 0) 0 st in
  r.1 = Normal tt /\
  (100 <= length (contents 0 r.2))%nat /\
  exists cs : list Call,
    calls r.2 = calls st ++ cs /\
    (length (List.filter is_evaluate cs) <= d)%nat /\
    length (List.filter is_evaluate cs) = S (length (clicks cs)).
Proof.
  apply (X14_loop_ends_when_pages_give_items nat (fun _ => paged 40 0) next_page
           100 0 (loop_start 0%nat) 0%nat 0).
  - intros q. vm_compute. discriminate.
  - intros q. eexists. reflexivity.
  - simpl. lia.
  - reflexivity.
  - simpl. lia.
Defined.
